(** * swagger-metadata (Swagger 2.0 middleware): route matching and
      parameter resolution

    A shallow embedding of [middleware/2.0/swagger-metadata.js]:
    the route table built by [swaggerMetadataMiddleware] and the per-request
    function [swaggerMetadata] it returns; and, from [bin/swagger-tools],
    the sorting of the documents given to a command ([getDocuments]) and
    the version the [validate] command reads off them.

    JavaScript objects used as dictionaries are modelled by their own
    properties; a read that finds no own property goes on to the prototype
    ([Object.prototype] for the objects the middleware creates) and yields
    the built-in found there.  The table [paths], whose enumeration order is
    observed by [_.find], is an association list in enumeration order;
    [operations] and [metadata.params] hold their own entries as finite
    maps. *)

From Stdlib Require Import String Ascii List ZArith Lia.
From stdpp Require Import base option list strings gmap fin_maps.

Open Scope string_scope.
Open Scope list_scope.

(** ** JavaScript values *)

(** The values a request or a schema default can carry, and the values a
    property read can yield.  [VBuiltin name] is a built-in function or
    object of the runtime, as a read finds it on a prototype; parsed data (a
    query, a body, a document) holds none. *)
#[warnings="-register-all"]
Inductive value : Type :=
| VUndefined
| VNull
| VBool (b : bool)
| VNum (n : Z)
| VStr (s : string)
| VArr (items : list value)
| VObj (props : list (string * value))
| VBuiltin (name : string).

(** An object seen through its own properties, in enumeration order. *)
Abbreviation object := (list (string * value)).

(** [_.isUndefined] *)
Definition isUndefined (v : value) : bool :=
  match v with VUndefined => true | _ => false end.

(** Truthiness, as tested by [!x] and [x || y]. *)
Definition truthy (v : value) : bool :=
  match v with
  | VUndefined | VNull => false
  | VBool b => b
  | VNum n => negb (n =? 0)%Z
  | VStr s => negb (String.eqb s "")
  | VArr _ | VObj _ | VBuiltin _ => true
  end.

(** [o[k]] on a dictionary: the first binding of [k], [undefined] if none. *)
Fixpoint lookup_prop {A : Type} (o : list (string * A)) (k : string) : option A :=
  match o with
  | [] => None
  | (k', v) :: o' => if decide (k' = k) then Some v else lookup_prop o' k
  end.

Definition obj_get (o : object) (k : string) : value :=
  default VUndefined (lookup_prop o k).

(** [a[i]] on an array: [undefined] out of range. *)
Definition array_get (a : list value) (i : nat) : value :=
  default VUndefined (a !! i).

Definition is_digit (c : ascii) : bool :=
  (48 <=? nat_of_ascii c)%nat && (nat_of_ascii c <=? 57)%nat.

Fixpoint digits_value (s : string) (acc : nat) : option nat :=
  match s with
  | EmptyString => Some acc
  | String c s' =>
      if is_digit c then digits_value s' (10 * acc + (nat_of_ascii c - 48))
      else None
  end.

(** A property name that is a canonical array index (["0"], ["17"], not
    ["007"]). *)
Definition array_index (k : string) : option nat :=
  match k with
  | EmptyString => None
  | String c EmptyString => digits_value k 0
  | String c _ => if Ascii.eqb c "0" then None else digits_value k 0
  end.

Fixpoint string_chars (s : string) : list value :=
  match s with
  | EmptyString => []
  | String c s' => VStr (String c EmptyString) :: string_chars s'
  end.

(** The names every object inherits from [Object.prototype] (ECMAScript 5.1
    and the accessors V8 adds). *)
Definition object_inherited : list string :=
  ["constructor"; "toString"; "toLocaleString"; "valueOf"; "hasOwnProperty";
   "isPrototypeOf"; "propertyIsEnumerable"; "__proto__"; "__defineGetter__";
   "__defineSetter__"; "__lookupGetter__"; "__lookupSetter__"].

(** The names of [Array.prototype], [String.prototype], [Number.prototype]
    and [Boolean.prototype]. *)
Definition array_inherited : list string :=
  ["constructor"; "toString"; "toLocaleString"; "concat"; "join"; "pop";
   "push"; "reverse"; "shift"; "slice"; "sort"; "splice"; "unshift";
   "indexOf"; "lastIndexOf"; "every"; "some"; "forEach"; "map"; "filter";
   "reduce"; "reduceRight"].

Definition string_inherited : list string :=
  ["constructor"; "toString"; "valueOf"; "charAt"; "charCodeAt"; "concat";
   "indexOf"; "lastIndexOf"; "localeCompare"; "match"; "replace"; "search";
   "slice"; "split"; "substring"; "substr"; "toLowerCase";
   "toLocaleLowerCase"; "toUpperCase"; "toLocaleUpperCase"; "trim";
   "trimLeft"; "trimRight"; "anchor"; "big"; "blink"; "bold"; "fixed";
   "fontcolor"; "fontsize"; "italics"; "link"; "small"; "strike"; "sub";
   "sup"].

Definition number_inherited : list string :=
  ["constructor"; "toString"; "toLocaleString"; "valueOf"; "toFixed";
   "toExponential"; "toPrecision"].

Definition boolean_inherited : list string :=
  ["constructor"; "toString"; "valueOf"].

(** What a read of [k] finds on the prototype chain of a value whose
    prototype is [owner], with the names [names], followed by
    [Object.prototype]: the built-in, by name, if any.  [__proto__] gives the
    prototype itself. *)
Definition prototype_builtin (owner : string) (names : list string)
    (k : string) : option string :=
  if decide (k = "__proto__") then Some owner
  else if decide (k ∈ names) then Some (owner +:+ "." +:+ k)
  else if decide (k ∈ object_inherited) then Some ("Object.prototype." +:+ k)
  else None.

(** The same for a plain object, whose prototype is [Object.prototype]. *)
Definition object_builtin (k : string) : option string :=
  prototype_builtin "Object.prototype" [] k.

Definition inherited_value (builtin : option string) : value :=
  match builtin with
  | Some name => VBuiltin name
  | None => VUndefined
  end.

(** [v[k]] on a value that is neither [undefined] nor [null]: the own
    properties of objects, [length] and the indices of arrays and strings,
    and then what the prototype chain gives.  The properties of a built-in
    are not modelled. *)
Definition get_prop (v : value) (k : string) : value :=
  match v with
  | VObj props =>
      match lookup_prop props k with
      | Some own => own
      | None => inherited_value (object_builtin k)
      end
  | VArr items =>
      if decide (k = "length") then VNum (Z.of_nat (length items))
      else match array_index k with
           | Some i => array_get items i
           | None =>
               inherited_value
                 (prototype_builtin "Array.prototype" array_inherited k)
           end
  | VStr s =>
      if decide (k = "length") then VNum (Z.of_nat (String.length s))
      else match array_index k with
           | Some i => array_get (string_chars s) i
           | None =>
               inherited_value
                 (prototype_builtin "String.prototype" string_inherited k)
           end
  | VNum _ =>
      inherited_value (prototype_builtin "Number.prototype" number_inherited k)
  | VBool _ =>
      inherited_value
        (prototype_builtin "Boolean.prototype" boolean_inherited k)
  | _ => VUndefined
  end.

(** [String.prototype.toLowerCase] on ASCII text. *)
Definition lower_ascii (c : ascii) : ascii :=
  let n := nat_of_ascii c in
  if (65 <=? n)%nat && (n <=? 90)%nat then ascii_of_nat (n + 32) else c.

Fixpoint toLowerCase (s : string) : string :=
  match s with
  | EmptyString => EmptyString
  | String c s' => String (lower_ascii c) (toLowerCase s')
  end.

(** ** The Swagger object *)

(** A parameter definition.  [p_ref] is the identity of the JavaScript
    object: two definitions are the same object ([===]) exactly when they
    have the same reference.  [p_in] and [p_schema] are [None] when the
    property is absent.  A definition is not named [__proto__]. *)
Record parameter : Type := {
  p_ref : nat;
  p_name : string;
  p_in : option string;
  p_schema : option object
}.

(** An operation object; [operationId] stands for the fields that are
    passed through untouched. *)
Record operation : Type := {
  operationId : string;
  op_parameters : option (list parameter)
}.

(** A path entry at [#/paths]: its [parameters] and the operations found
    under its other properties. *)
Record path_item : Type := {
  pi_parameters : option (list parameter);
  pi_props : list (string * operation)
}.

Record swagger_object : Type := {
  basePath : option string;
  paths : list (string * path_item)
}.

(** ** Compiled paths *)

(** The key objects [pathToRegexp] pushes; only [name] is read. *)
Record key : Type := { key_name : string }.

(** A regular expression without the global flag: its string form and its
    [exec], which returns [null] ([None]) or the array of the whole match
    followed by the capture groups. *)
Record regexp : Type := {
  re_toString : string;
  re_exec : string -> option (list value)
}.

(** The two functions the middleware imports: [expressStylePath] from
    [../helpers] and [pathToRegexp] from the path-to-regexp package (the
    [keys] array it fills is returned with the expression). *)
Class PathCompiler : Type := {
  expressStylePath : option string -> string -> string;
  pathToRegexp : string -> regexp * list key
}.

(** ** The route table *)

Record route : Type := {
  r_path : path_item;
  r_keys : list key;
  r_re : regexp;
  r_operations : gmap string operation
}.

(** [o[k] = v] on a dictionary: an existing key keeps its place in the
    enumeration order, a new key goes last. *)
Fixpoint set_prop {A : Type} (k : string) (v : A) (o : list (string * A))
  : list (string * A) :=
  match o with
  | [] => [(k, v)]
  | (k', v') :: o' =>
      if decide (k' = k) then (k, v) :: o' else (k', v') :: set_prop k v o'
  end.

Definition methods : list string :=
  ["get"; "put"; "post"; "delete"; "options"; "head"; "patch"].

(** The inner [_.each] over the method names. *)
Definition collect_operations (path : path_item) : gmap string operation :=
  fold_left
    (fun operations method =>
       match lookup_prop (pi_props path) method with
       | Some operation => <[method := operation]> operations
       | None => operations
       end)
    methods ∅.

Section RouteTable.
Context `{PathCompiler}.

(** The entry stored for one path of the Swagger object. *)
Definition make_route (base : option string) (pathName : string)
    (path : path_item) : string * route :=
  let '(re, keys) := pathToRegexp (expressStylePath base pathName) in
  (re_toString re,
   {| r_path := path; r_keys := keys; r_re := re;
      r_operations := collect_operations path |}).

(** One turn of the outer [_.each]: [paths[reStr] = {...}]. *)
Definition add_path (base : option string)
    (table : list (string * route)) (entry : string * path_item)
  : list (string * route) :=
  let '(reStr, r) := make_route base entry.1 entry.2 in
  set_prop reStr r table.

(** The table [paths] of [swaggerMetadataMiddleware]. *)
Definition build_paths (swaggerObject : swagger_object)
  : list (string * route) :=
  fold_left (add_path (basePath swaggerObject)) (paths swaggerObject) [].
End RouteTable.

(** ** Requests and metadata *)

(** One entry of [req.swagger.params]. *)
Record param_entry : Type := {
  pe_schema : parameter;
  pe_value : value
}.

(** What [path.operations[method]] yields when it is not [undefined]: an
    operation stored in [operations], or the built-in, by name, that the
    object [operations] inherits under that name. *)
Inductive operation_value : Type :=
| Declared (operation : operation)
| Inherited (builtin : string).

(** [operation.parameters]; a built-in has no such property. *)
Definition ov_parameters (operation : operation_value)
  : option (list parameter) :=
  match operation with
  | Declared operation => op_parameters operation
  | Inherited _ => None
  end.

(** [operations[k]]: the own entry, else what [Object.prototype] gives. *)
Definition read_operation (operations : gmap string operation) (k : string)
  : option operation_value :=
  match operations !! k with
  | Some operation => Some (Declared operation)
  | None => Inherited <$> object_builtin k
  end.

(** The record attached to the request as [req.swagger]. *)
Record metadata : Type := {
  md_path : option path_item;
  md_operation : option operation_value;
  md_params : gmap string param_entry;
  md_swaggerObject : swagger_object
}.

(** The request properties the middleware reads or writes.
    [req_pathname] is [parseurl(req).pathname]; [req_headers] is always an
    object, as on a Node request; [req_query] and [req_body] are whatever
    the earlier middleware left, [undefined] if none ran; [req_swagger] is
    [None] while [req.swagger] has not been assigned. *)
Record request : Type := {
  req_pathname : string;
  req_method : string;
  req_query : value;
  req_headers : object;
  req_body : value;
  req_swagger : option metadata
}.

(** [req.swagger = metadata] *)
Definition set_swagger (req : request) (m : metadata) : request :=
  {| req_pathname := req_pathname req;
     req_method := req_method req;
     req_query := req_query req;
     req_headers := req_headers req;
     req_body := req_body req;
     req_swagger := Some m |}.

(** Completion of a block that can throw. *)
Inductive result (A : Type) : Type :=
| Ok (a : A)
| Throw (message : string).
Arguments Ok {A} a.
Arguments Throw {A} message.

(** ** Matching *)

(** [_.find(paths, function (path) { match = path.re.exec(rPath); return
    _.isArray(match); })]: the first entry, in enumeration order, whose
    expression matches, with the value [match] is left with. *)
Fixpoint find_path (table : list (string * route)) (rPath : string)
  : option (route * list value) :=
  match table with
  | [] => None
  | (_, path) :: table' =>
      match re_exec (r_re path) rPath with
      | Some match_ => Some (path, match_)
      | None => find_path table' rPath
      end
  end.

(** The record built before the parameters are collected, [path] being
    what [_.find] returned. *)
Definition init_metadata (swaggerObject : swagger_object)
    (path : option route) (req : request) : metadata :=
  {| md_path := r_path <$> path;
     md_operation :=
       path ≫= (fun path =>
                  read_operation (r_operations path)
                    (toLowerCase (req_method req)));
     md_params := ∅;
     md_swaggerObject := swaggerObject |}.

(** ** Parameter resolution *)

Definition body_error : string :=
  "Server configuration error: req.body is not defined but is required".
Definition query_error : string :=
  "Server configuration error: req.query is not defined but is required".

(** [param.in || 'query'] *)
Definition paramType (param : parameter) : string :=
  match p_in param with
  | Some s => if String.eqb s "" then "query" else s
  | None => "query"
  end.

(** The [_.each] over [path.keys] of the [path] case, from [index] on. *)
Fixpoint each_key (keys : list key) (index : nat) (match_ : list value)
    (name : string) (val : value) : value :=
  match keys with
  | [] => val
  | key :: keys' =>
      each_key keys' (S index) match_ name
        (if decide (key_name key = name) then array_get match_ (index + 1)
         else val)
  end.

(** The [switch]: the value found at the parameter's location. *)
Definition source_value (keys : list key) (match_ : list value)
    (req : request) (param : parameter) : result value :=
  let paramType := paramType param in
  if decide (paramType = "body" ∨ paramType = "formData") then
    if negb (truthy (req_body req)) then Throw body_error
    else Ok (get_prop (req_body req) (p_name param))
  else if decide (paramType = "header") then
    Ok (get_prop (VObj (req_headers req)) (p_name param))
  else if decide (paramType = "path") then
    Ok (each_key keys 0 match_ (p_name param) VUndefined)
  else if decide (paramType = "query") then
    if negb (truthy (req_query req)) then Throw query_error
    else Ok (get_prop (req_query req) (p_name param))
  else Ok VUndefined.

(** "Use the default value when necessary". *)
Definition use_default (param : parameter) (val : value) : value :=
  match p_schema param with
  | Some schema =>
      if isUndefined val && negb (isUndefined (obj_get schema "default"))
      then obj_get schema "default"
      else val
  | None => val
  end.

(** The entry one parameter definition resolves to. *)
Definition resolve_param (keys : list key) (match_ : list value)
    (req : request) (param : parameter) : result param_entry :=
  match source_value keys match_ req param with
  | Ok val => Ok {| pe_schema := param; pe_value := use_default param val |}
  | Throw message => Throw message
  end.

(** [_.union] of the two [parameters] properties: the arrays are
    concatenated (a value that is not an array is skipped) and an object
    already in the result is not added again. *)
Definition same_object (p q : parameter) : bool :=
  Nat.eqb (p_ref p) (p_ref q).

Definition baseUniq (l : list parameter) : list parameter :=
  fold_left
    (fun result p =>
       if existsb (same_object p) result then result else result ++ [p])
    l [].

Definition union (a b : option (list parameter)) : list parameter :=
  baseUniq (default [] a ++ default [] b).

(** The [_.each] over the union: [params] is [metadata.params] as the loop
    leaves it, with the message of the exception that stopped it, if any. *)
Fixpoint each_param (keys : list key) (match_ : list value) (req : request)
    (l : list parameter) (params : gmap string param_entry)
  : gmap string param_entry * option string :=
  match l with
  | [] => (params, None)
  | param :: l' =>
      match resolve_param keys match_ req param with
      | Ok entry =>
          each_param keys match_ req l' (<[p_name param := entry]> params)
      | Throw message => (params, Some message)
      end
  end.

(** ** The middleware *)

(** [swaggerMetadata(req, res, next)] over the table [table]: the request
    as it is left, and the argument [next] is called with ([None] for
    [next()]). *)
Definition swaggerMetadata (swaggerObject : swagger_object)
    (table : list (string * route)) (req : request)
  : request * option string :=
  let found := find_path table (req_pathname req) in
  let metadata := init_metadata swaggerObject (fst <$> found) req in
  match found, md_operation metadata with
  | Some (path, match_), Some operation =>
      match each_param (r_keys path) match_ req
              (union (pi_parameters (r_path path)) (ov_parameters operation))
              (md_params metadata) with
      | (params, None) =>
          (set_swagger req
             {| md_path := md_path metadata;
                md_operation := md_operation metadata;
                md_params := params;
                md_swaggerObject := md_swaggerObject metadata |},
           None)
      | (_, Some message) => (req, Some message)
      end
  | _, _ => (req, None)
  end.

(** [swaggerMetadataMiddleware(swaggerObject)] *)
Definition swaggerMetadataMiddleware `{PathCompiler}
    (swaggerObject : swagger_object) : request -> request * option string :=
  swaggerMetadata swaggerObject (build_paths swaggerObject).

(** ** A compiler for plain path templates

    Neither of the two imported functions is among the sources:
    [expressStylePath] belongs to [../helpers] and [pathToRegexp] to the
    external package path-to-regexp.  Both are modelled here for plain
    templates only: text made of letters, digits, [_], [-] and [/], with
    placeholders [{name}].  A character that path-to-regexp would read as
    regular-expression syntax is outside the model, which takes it as the
    character itself, in the source text of the expression as in the
    match. *)

(** A placeholder written the Express way: [{] becomes [:] and [}] is
    dropped. *)
Fixpoint braces_to_colon (s : string) : string :=
  match s with
  | EmptyString => EmptyString
  | String c s' =>
      if Ascii.eqb c "{" then String ":" (braces_to_colon s')
      else if Ascii.eqb c "}" then braces_to_colon s'
      else String c (braces_to_colon s')
  end.

(** Modelled from the spec: [expressStylePath] of [../helpers], which is not
    among the sources.  The base prefix (possibly empty) is concatenated with
    the template, and each placeholder [{identifier}] is written the Express
    way, [:identifier]. *)
Definition plain_expressStylePath (base : option string) (apiPath : string)
  : string :=
  braces_to_colon (default "" base +:+ apiPath).

(** Modelled from the spec: what path-to-regexp, an external package that
    is not among the sources, reads in a plain Express path: characters and
    parameters [:name], the capture slots. *)
Inductive token : Type :=
| TChar (c : ascii)
| TParam (name : string).

(** [\w] *)
Definition is_word (c : ascii) : bool :=
  let n := nat_of_ascii c in
  ((48 <=? n)%nat && (n <=? 57)%nat) || ((65 <=? n)%nat && (n <=? 90)%nat)
  || ((97 <=? n)%nat && (n <=? 122)%nat) || (n =? 95)%nat.

(** A colon followed by no word character stays a character. *)
Definition close_param (name : string) : token :=
  if String.eqb name "" then TChar ":" else TParam name.

(** Modelled from the spec: the slots of a path, from left to right; [cur]
    is the name being read after a colon, if any. *)
Fixpoint tokenize (s : string) (cur : option string) : list token :=
  match s with
  | EmptyString =>
      match cur with
      | Some name => [close_param name]
      | None => []
      end
  | String c s' =>
      match cur with
      | Some name =>
          if is_word c then tokenize s' (Some (name +:+ String c EmptyString))
          else if Ascii.eqb c ":" then close_param name :: tokenize s' (Some EmptyString)
          else close_param name :: TChar c :: tokenize s' None
      | None =>
          if Ascii.eqb c ":" then tokenize s' (Some EmptyString)
          else TChar c :: tokenize s' None
      end
  end.

Definition backslash : ascii := ascii_of_nat 92.

(** The characters of regular-expression syntax, and [/]; the last three
    are the two parentheses and the star. *)
Definition is_regexp_syntax (c : ascii) : bool :=
  existsb (Ascii.eqb c)
    [backslash; "/"; "^"; "$"; "."; "|"; "?"; "+"; "["; "]"; "{"; "}";
     ascii_of_nat 40; ascii_of_nat 41; ascii_of_nat 42]%char.

(** Modelled from the spec: the source text of the expression.  A parameter
    is the group [(?:([^\/]+?))] whatever its name; a character of
    regular-expression syntax is escaped, so that the text says what
    [match_tokens] does. *)
Definition token_source (t : token) : string :=
  match t with
  | TChar c =>
      if is_regexp_syntax c then String backslash (String c EmptyString)
      else String c EmptyString
  | TParam _ => "(?:([^\/]+?))"
  end.

Fixpoint tokens_source (ts : list token) : string :=
  match ts with
  | [] => EmptyString
  | t :: ts' => token_source t +:+ tokens_source ts'
  end.

Fixpoint tokens_keys (ts : list token) : list key :=
  match ts with
  | [] => []
  | TChar _ :: ts' => tokens_keys ts'
  | TParam name :: ts' => {| key_name := name |} :: tokens_keys ts'
  end.

(** Modelled from the spec: a parameter, [([^\/]+?)], takes the shortest
    non-empty run of characters other than [/], added to [taken], after
    which [rest] matches. *)
Fixpoint shortest (rest : string -> option (list string)) (taken s : string)
  : option (list string) :=
  match s with
  | EmptyString => None
  | String c s' =>
      if Ascii.eqb c "/" then None
      else
        let taken' := taken +:+ String c EmptyString in
        match rest s' with
        | Some captures => Some (taken' :: captures)
        | None => shortest rest taken' s'
        end
  end.

(** Modelled from the spec: the captures of the anchored match of [s],
    aligned with the slots.  As with the default options of the package,
    case is ignored and one trailing [/] is allowed. *)
Fixpoint match_tokens (ts : list token) (s : string) : option (list string) :=
  match ts with
  | [] => if decide (s = "" ∨ s = "/") then Some [] else None
  | TChar c :: ts' =>
      match s with
      | String c' s' =>
          if Ascii.eqb (lower_ascii c) (lower_ascii c') then match_tokens ts' s'
          else None
      | EmptyString => None
      end
  | TParam _ :: ts' => shortest (match_tokens ts') EmptyString s
  end.

(** Modelled from the spec: [pathToRegexp(path, keys)] of the external
    package path-to-regexp, which is not among the sources, on a plain
    Express path: the compiled pattern, its string form and the names of its
    capture slots from left to right. *)
Definition plain_pathToRegexp (path : string) : regexp * list key :=
  let ts := tokenize path None in
  ({| re_toString := "/^" +:+ tokens_source ts +:+ "\/?$/i";
      re_exec := fun s =>
        (fun captures => VStr s :: (VStr <$> captures)) <$> match_tokens ts s |},
   tokens_keys ts).

Definition plain_compiler : PathCompiler :=
  {| expressStylePath := plain_expressStylePath;
     pathToRegexp := plain_pathToRegexp |}.










(** ** Statements about a declaration and a request *)

(** The declaration reads request data that is not there: [req.query] for
    the [query] location, [req.body] for [body] and [formData]. *)
Definition missing_source (req : request) (param : parameter) : Prop :=
  (paramType param = "query" ∧ truthy (req_query req) = false)
  ∨ ((paramType param = "body" ∨ paramType param = "formData")
     ∧ truthy (req_body req) = false).

(** Query semantics: [req.query[name]], or the exception when [req.query]
    is not there. *)
Definition query_semantics (req : request) (name : string) : result value :=
  if negb (truthy (req_query req)) then Throw query_error
  else Ok (get_prop (req_query req) name).

(** The five locations the [switch] has a case for. *)
Definition known_location (location : option string) : Prop :=
  location = Some "path" ∨ location = Some "query" ∨ location = Some "header"
  ∨ location = Some "body" ∨ location = Some "formData".

(** ** Statements of the specification that do not hold as worded *)

(** Of two templates declared A then B that both match, A's route is the
    one selected. *)
Definition first_declared_selected `{PathCompiler} : Prop :=
  ∀ base nameA A nameB B rPath,
    nameA ≠ nameB →
    is_Some (re_exec (r_re (make_route base nameA A).2) rPath) →
    is_Some (re_exec (r_re (make_route base nameB B).2) rPath) →
    fst <$> find_path
              (build_paths
                 {| basePath := base; paths := [(nameA, A); (nameB, B)] |})
              rPath
    = Some (make_route base nameA A).2.

(** A location outside the five is resolved with query semantics. *)
Definition unlisted_location_is_query : Prop :=
  ∀ keys m req param,
    ¬ known_location (p_in param) →
    source_value keys m req param = query_semantics req (p_name param).


(** ** Sample descriptions and requests *)

Definition petId_in_path : parameter :=
  {| p_ref := 1; p_name := "petId"; p_in := Some "path"; p_schema := None |}.
Definition id_in_path : parameter :=
  {| p_ref := 2; p_name := "id"; p_in := Some "path"; p_schema := None |}.
Definition id_in_query : parameter :=
  {| p_ref := 3; p_name := "id"; p_in := Some "query"; p_schema := None |}.
Definition limit_with_default : parameter :=
  {| p_ref := 4; p_name := "limit"; p_in := None;
     p_schema := Some [("type", VStr "integer"); ("default", VNum 20)] |}.
Definition token_in_cookie : parameter :=
  {| p_ref := 5; p_name := "token"; p_in := Some "cookie"; p_schema := None |}.
Definition pet_in_body : parameter :=
  {| p_ref := 6; p_name := "pet"; p_in := Some "body"; p_schema := None |}.

Definition pet_by_petId : path_item :=
  {| pi_parameters := Some [petId_in_path];
     pi_props :=
       [("get", {| operationId := "getPetById"; op_parameters := None |})] |}.

Definition pet_by_id : path_item :=
  {| pi_parameters := Some [id_in_path];
     pi_props :=
       [("get", {| operationId := "findPet";
                   op_parameters := Some [id_in_query] |})] |}.

Definition my_pets : path_item :=
  {| pi_parameters := Some [limit_with_default];
     pi_props :=
       [("get", {| operationId := "listMyPets"; op_parameters := None |});
        ("post", {| operationId := "addPet";
                    op_parameters := Some [pet_in_body] |})] |}.


(** Two templates that overlap on [/v1/pets/mine]. *)
Definition overlap_api : swagger_object :=
  {| basePath := Some "/v1";
     paths := [("/pets/{petId}", pet_by_petId); ("/pets/mine", my_pets)] |}.

(** [id] declared for the path ([in: path]) and again for its [get]
    operation ([in: query]). *)
Definition override_api : swagger_object :=
  {| basePath := None; paths := [("/pets/{id}", pet_by_id)] |}.

Definition my_pets_api : swagger_object :=
  {| basePath := None; paths := [("/pets/mine", my_pets)] |}.

Definition request_of (method pathname : string) (query body : value)
  : request :=
  {| req_pathname := pathname; req_method := method; req_query := query;
     req_headers := []; req_body := body; req_swagger := None |}.

(** ** The tokens of a template *)






(** ** The command line: the documents given to a command

    [getDocuments] of [bin/swagger-tools]: the callback it hands to
    [async.map], run on the error and the documents [async.map] reports. *)

(** The values [async.map] and the file, network and YAML layers report as
    an error: [null], [undefined], or an [Error] with its message. *)
Inductive error_value : Type :=
| ENull
| EUndefined
| EError (message : string).

(** [resolvedDocuments]; a field is [None] while the property is not
    set. *)
Record resolved_documents : Type := {
  rd_swaggerObject : option value;
  rd_resourceListing : option value;
  rd_apiDeclarations : option (list value)
}.

Definition no_documents : resolved_documents :=
  {| rd_swaggerObject := None; rd_resourceListing := None;
     rd_apiDeclarations := None |}.

(** How a step of a command ends: it goes on with a value, or the process
    exits with a code after the lines written to the error stream. *)
Inductive cli (A : Type) : Type :=
| Continue (a : A)
| Exit (code : Z) (stderr : list string).
Arguments Continue {A} a.
Arguments Exit {A} code stderr.

Definition exitWithError {A : Type} (msg : string) : cli A :=
  Exit 1 [""; "  error: " +:+ msg; ""].

Definition handleUnidentifiableVersion {A : Type} (path : string) : cli A :=
  exitWithError
    ("Unable to identify the Swagger version for document: " +:+ path).

(** One turn of the [_.each] over [documents]. *)
Definition collect_document (pathsAndOrUrls : list string)
    (resolvedDocuments : resolved_documents) (index : nat) (document : value)
  : cli resolved_documents :=
  if negb (truthy document) then Continue resolvedDocuments
  else if (index =? 0)%nat then
    if truthy (get_prop document "swagger") then
      Continue {| rd_swaggerObject := Some document;
                  rd_resourceListing := rd_resourceListing resolvedDocuments;
                  rd_apiDeclarations := rd_apiDeclarations resolvedDocuments |}
    else if truthy (get_prop document "swaggerVersion") then
      Continue {| rd_swaggerObject := rd_swaggerObject resolvedDocuments;
                  rd_resourceListing := Some document;
                  rd_apiDeclarations := rd_apiDeclarations resolvedDocuments |}
    else
      handleUnidentifiableVersion
        (default "undefined" (pathsAndOrUrls !! index))
  else
    match rd_swaggerObject resolvedDocuments with
    | None =>
        Continue {| rd_swaggerObject := None;
                    rd_resourceListing := rd_resourceListing resolvedDocuments;
                    rd_apiDeclarations :=
                      Some (default [] (rd_apiDeclarations resolvedDocuments)
                            ++ [document]) |}
    | Some _ => Continue resolvedDocuments
    end.

(** The [_.each] over [documents], from [index] on. *)
Fixpoint each_document (pathsAndOrUrls : list string) (documents : list value)
    (index : nat) (resolvedDocuments : resolved_documents)
  : cli resolved_documents :=
  match documents with
  | [] => Continue resolvedDocuments
  | document :: documents' =>
      match collect_document pathsAndOrUrls resolvedDocuments index document with
      | Continue resolvedDocuments' =>
          each_document pathsAndOrUrls documents' (S index) resolvedDocuments'
      | Exit code stderr => Exit code stderr
      end
  end.

(** The callback of [async.map]: what [callback] is called with. *)
Definition getDocuments_done (pathsAndOrUrls : list string)
    (err : error_value) (documents : list value)
  : cli (error_value * resolved_documents) :=
  match err with
  | ENull =>
      match each_document pathsAndOrUrls documents 0 no_documents with
      | Continue resolvedDocuments => Continue (err, resolvedDocuments)
      | Exit code stderr => Exit code stderr
      end
  | _ => Continue (err, no_documents)
  end.

(** The [validate] command: the version it asks the helpers for, and the
    documents it hands to the validator. *)
Definition listing_version (rlDoc : option value) : value :=
  match rlDoc with
  | Some rlDoc =>
      if truthy rlDoc then get_prop rlDoc "swaggerVersion" else VUndefined
  | None => VUndefined
  end.

Definition validate_version (documents : resolved_documents) : value :=
  match rd_swaggerObject documents with
  | Some soDoc =>
      if truthy soDoc && truthy (get_prop soDoc "swagger")
      then get_prop soDoc "swagger"
      else listing_version (rd_resourceListing documents)
  | None => listing_version (rd_resourceListing documents)
  end.

(** The documents [apiDeclarations] ends with after the [_.each] has gone
    over [documents] from the second on: the documents that are not falsy,
    added in order to [acc]; the property stays as it was when there is
    none. *)
Definition kept_declarations (acc : option (list value))
    (documents : list value) : option (list value) :=
  match filter (λ d, truthy d = true) documents with
  | [] => acc
  | kept => Some (default [] acc ++ kept)
  end.

(** ** Statements about the table and the attached metadata *)

(** The distinct elements of a list, each at the place of its first
    occurrence. *)
Fixpoint nub (l : list string) : list string :=
  match l with
  | [] => []
  | k :: l' => k :: filter (λ k', k' ≠ k) (nub l')
  end.

(** The Swagger object with one more path declared after the others. *)
Definition declare_path (sw : swagger_object) (pathName : string)
    (path : path_item) : swagger_object :=
  {| basePath := basePath sw; paths := paths sw ++ [(pathName, path)] |}.

(** The request with another method. *)
Definition set_method (req : request) (method : string) : request :=
  {| req_pathname := req_pathname req;
     req_method := method;
     req_query := req_query req;
     req_headers := req_headers req;
     req_body := req_body req;
     req_swagger := req_swagger req |}.

(** The values [!x] holds for. *)
Definition falsy (v : value) : Prop :=
  v = VUndefined ∨ v = VNull ∨ v = VBool false ∨ v = VNum 0 ∨ v = VStr "".

(** The declaration reads [req.query] or [req.body] while it is falsy,
    parsed or not. *)
Definition falsy_source (req : request) (param : parameter) : Prop :=
  (paramType param = "query" ∧ falsy (req_query req))
  ∨ ((paramType param = "body" ∨ paramType param = "formData")
     ∧ falsy (req_body req)).

(** The declaration reads [req.query] or [req.body] while the request has
    none: no parser has set the property. *)
Definition unparsed_source (req : request) (param : parameter) : Prop :=
  (paramType param = "query" ∧ req_query req = VUndefined)
  ∨ ((paramType param = "body" ∨ paramType param = "formData")
     ∧ req_body req = VUndefined).

(** The configuration error is raised exactly when a declaration reads
    data the request does not carry. *)
Definition error_iff_source_not_parsed : Prop :=
  ∀ sw table req path m operation,
    find_path table (req_pathname req) = Some (path, m) →
    r_operations path !! toLowerCase (req_method req) = Some operation →
    (∃ message, (swaggerMetadata sw table req).2 = Some message)
    ↔ ∃ param,
        param ∈ union (pi_parameters (r_path path)) (op_parameters operation)
        ∧ unparsed_source req param.

(** The result for a request without a route, or without an operation for
    its method, is a metadata record. *)
Definition unmatched_yields_a_record `{PathCompiler} : Prop :=
  ∀ sw req,
    (find_path (build_paths sw) (req_pathname req) = None →
     (swaggerMetadataMiddleware sw req).2 = None
     ∧ req_swagger (swaggerMetadataMiddleware sw req).1
       = Some {| md_path := None; md_operation := None; md_params := ∅;
                 md_swaggerObject := sw |})
    ∧ (∀ path m,
         find_path (build_paths sw) (req_pathname req) = Some (path, m) →
         lookup_prop (pi_props (r_path path)) (toLowerCase (req_method req))
         = None →
         (swaggerMetadataMiddleware sw req).2 = None
         ∧ req_swagger (swaggerMetadataMiddleware sw req).1
           = Some {| md_path := Some (r_path path); md_operation := None;
                     md_params := ∅; md_swaggerObject := sw |}).

(** A path item with an operation under [trace], a name the middleware does
    not look for. *)
Definition traced_pets : path_item :=
  {| pi_parameters := None;
     pi_props :=
       [("trace", {| operationId := "tracePets"; op_parameters := None |});
        ("get", {| operationId := "listPets"; op_parameters := None |})] |}.

Definition traced_api : swagger_object :=
  {| basePath := None; paths := [("/pets", traced_pets)] |}.

(** * Properties *)

(** ** Dictionaries *)

Lemma lookup_prop_set_prop {A : Type} (k k' : string) (v : A)
    (o : list (string * A)) :
  lookup_prop (set_prop k v o) k'
  = if decide (k = k') then Some v else lookup_prop o k'.
Proof.
  induction o as [|[k0 v0] o IH]; simpl.
  - destruct (decide (k = k')); reflexivity.
  - destruct (decide (k0 = k)) as [->|Hne]; simpl.
    + destruct (decide (k = k')); reflexivity.
    + destruct (decide (k0 = k')) as [->|Hne'].
      * destruct (decide (k = k')); [congruence | reflexivity].
      * exact IH.
Qed.

Lemma set_prop_fresh {A : Type} (k : string) (v : A) (o : list (string * A)) :
  k ∉ o.*1 → set_prop k v o = o ++ [(k, v)].
Proof.
  induction o as [|[k0 v0] o IH]; simpl; intros Hk; [reflexivity|].
  apply not_elem_of_cons in Hk as [Hne Hk].
  destruct (decide (k0 = k)); [congruence|].
  by rewrite IH.
Qed.

Lemma set_prop_keys {A : Type} (k : string) (v : A) (o : list (string * A)) :
  (set_prop k v o).*1 = if decide (k ∈ o.*1) then o.*1 else o.*1 ++ [k].
Proof.
  induction o as [|[k0 v0] o IH].
  - reflexivity.
  - cbn [set_prop]. rewrite (fmap_cons fst (k0, v0) o). cbn [fst].
    destruct (decide (k0 = k)) as [->|Hne].
    + rewrite decide_True by left. reflexivity.
    + rewrite fmap_cons, IH. cbn [fst].
      destruct (decide (k ∈ o.*1)) as [Hin|Hnin].
      * rewrite decide_True by (by right). reflexivity.
      * rewrite decide_False; [reflexivity|].
        intros [->|Hin]%elem_of_cons; [congruence | contradiction].
Qed.


Lemma set_prop_elem {A : Type} (k : string) (v : A) (o : list (string * A))
    (k' : string) (v' : A) :
  (k', v') ∈ set_prop k v o → (k' = k ∧ v' = v) ∨ (k', v') ∈ o.
Proof.
  induction o as [|[k0 v0] o IH]; simpl.
  - intros Hin. apply list_elem_of_singleton in Hin. left. by inversion Hin.
  - destruct (decide (k0 = k)) as [->|Hne]; intros Hin;
      apply elem_of_cons in Hin as [Heq|Hin].
    + left. by inversion Heq.
    + right. by right.
    + right. rewrite Heq. left.
    + destruct (IH Hin) as [?|?]; [by left | right; by right].
Qed.


(** ** Matching *)

Lemma find_path_app (t1 t2 : list (string * route)) (rPath : string) :
  find_path (t1 ++ t2) rPath
  = match find_path t1 rPath with
    | Some found => Some found
    | None => find_path t2 rPath
    end.
Proof.
  induction t1 as [|[k r] t1 IH]; simpl; [reflexivity|].
  destruct (re_exec (r_re r) rPath); [reflexivity | exact IH].
Qed.

Lemma find_path_none (t : list (string * route)) (rPath : string) :
  (∀ e, e ∈ t → re_exec (r_re e.2) rPath = None) → find_path t rPath = None.
Proof.
  induction t as [|[k r] t IH]; simpl; intros Hall; [reflexivity|].
  specialize (Hall (k, r)) as Hkr. simpl in Hkr. rewrite Hkr by left.
  apply IH. intros e He. apply Hall. by right.
Qed.

Lemma find_path_elem (t : list (string * route)) (rPath : string)
    (r : route) (m : list value) :
  find_path t rPath = Some (r, m) →
  re_exec (r_re r) rPath = Some m ∧ ∃ k, (k, r) ∈ t.
Proof.
  induction t as [|[k r0] t IH]; simpl; [discriminate|].
  destruct (re_exec (r_re r0) rPath) as [m0|] eqn:Hexec.
  - intros [= <- <-]. split; [exact Hexec|]. exists k. left.
  - intros Hfind. destruct (IH Hfind) as [Hm [k' Hin]].
    split; [exact Hm|]. exists k'. by right.
Qed.

(** ** The route table *)

Section RouteTableFacts.
Context `{PathCompiler}.
Variable base : option string.

Local Abbreviation entry_of e := (make_route base e.1 e.2).

Lemma add_path_set_prop (table : list (string * route)) (e : string * path_item) :
  add_path base table e = set_prop (entry_of e).1 (entry_of e).2 table.
Proof. unfold add_path. destruct (make_route base e.1 e.2). reflexivity. Qed.


Lemma make_route_path (pathName : string) (path : path_item) :
  r_path (make_route base pathName path).2 = path.
Proof. unfold make_route. destruct (pathToRegexp _). reflexivity. Qed.

Lemma make_route_operations (pathName : string) (path : path_item) :
  r_operations (make_route base pathName path).2 = collect_operations path.
Proof. unfold make_route. destruct (pathToRegexp _). reflexivity. Qed.


Lemma fold_add_path_elem (l : list (string * path_item))
    (acc : list (string * route)) (k : string) (r : route) :
  (k, r) ∈ fold_left (add_path base) l acc →
  (k, r) ∈ acc ∨ ∃ e, e ∈ l ∧ (k, r) = entry_of e.
Proof.
  revert acc. induction l as [|e l IH]; intros acc; simpl; [by left|].
  intros Hin. destruct (IH _ Hin) as [Hacc|[e' [He' Heq]]].
  - rewrite add_path_set_prop in Hacc.
    apply set_prop_elem in Hacc as [[-> ->]|Hacc]; [|by left].
    right. exists e. split; [left|]. by destruct (entry_of e).
  - right. exists e'. split; [by right | exact Heq].
Qed.



(** With pairwise distinct keys nothing is overwritten: the table lists the
    entries in the order of the paths. *)
Lemma fold_add_path_distinct (l : list (string * path_item))
    (acc : list (string * route)) :
  NoDup (acc.*1 ++ map (λ e, (entry_of e).1) l) →
  fold_left (add_path base) l acc = acc ++ map (λ e, entry_of e) l.
Proof.
  revert acc. induction l as [|e l IH]; intros acc Hnd; simpl.
  - by rewrite app_nil_r.
  - simpl in Hnd.
    assert (Hfresh : (entry_of e).1 ∉ acc.*1).
    { apply NoDup_app in Hnd as (_ & Hdisj & _).
      intros Hin. apply (Hdisj _ Hin). left. }
    rewrite add_path_set_prop, (set_prop_fresh _ _ _ Hfresh).
    rewrite IH.
    + rewrite <- app_assoc. simpl. by destruct (entry_of e).
    + rewrite fmap_app, <- app_assoc. exact Hnd.
Qed.

End RouteTableFacts.

(** ** Parameter resolution *)

Lemma source_value_throws (keys : list key) (m : list value) (req : request)
    (param : parameter) :
  (∃ message, source_value keys m req param = Throw message)
  ↔ missing_source req param.
Proof.
  unfold source_value, missing_source.
  destruct (decide (paramType param = "body" ∨ paramType param = "formData"))
    as [Hbody|Hbody].
  - destruct (truthy (req_body req)); simpl; split.
    + intros [? [=]].
    + intros [[Hq _]|[_ [=]]]. destruct Hbody as [Hb|Hb]; congruence.
    + intros _. right. by split.
    + intros _. by eexists.
  - destruct (decide (paramType param = "header")) as [Hh|Hh];
      [split; [intros [? [=]] | intros [[Hq _]|[Hb _]]; [congruence | tauto]]|].
    destruct (decide (paramType param = "path")) as [Hp|Hp];
      [split; [intros [? [=]] | intros [[Hq _]|[Hb _]]; [congruence | tauto]]|].
    destruct (decide (paramType param = "query")) as [Hq|Hq].
    + destruct (truthy (req_query req)); simpl; split.
      * intros [? [=]].
      * intros [[_ [=]]|[Hb _]]. tauto.
      * intros _. left. by split.
      * intros _. by eexists.
    + split; [intros [? [=]] | intros [[Hq' _]|[Hb _]]; tauto].
Qed.

Lemma source_value_message (keys : list key) (m : list value) (req : request)
    (param : parameter) (message : string) :
  source_value keys m req param = Throw message →
  message = body_error ∨ message = query_error.
Proof.
  unfold source_value.
  repeat match goal with |- context [decide ?P] => destruct (decide P) end;
    repeat match goal with |- context [negb ?b] => destruct b; simpl end;
    intros [=]; auto.
Qed.

Lemma resolve_param_throws (keys : list key) (m : list value) (req : request)
    (param : parameter) :
  (∃ message, resolve_param keys m req param = Throw message)
  ↔ missing_source req param.
Proof.
  rewrite <- (source_value_throws keys m req param). unfold resolve_param.
  destruct (source_value keys m req param); split; intros [msg [=]]; eauto.
Qed.

(** The loop stops with a message exactly when one of the declarations
    reads request data that is not there. *)
Lemma each_param_throws (keys : list key) (m : list value) (req : request)
    (l : list parameter) (params : gmap string param_entry) :
  (∃ message, (each_param keys m req l params).2 = Some message)
  ↔ ∃ param, param ∈ l ∧ missing_source req param.
Proof.
  revert params. induction l as [|param l IH]; intros params; simpl.
  - split; [intros [? [=]] | intros [? [Hin _]]; inversion Hin].
  - destruct (resolve_param keys m req param) as [entry|msg] eqn:Hres.
    + rewrite IH. split; intros [q [Hq Hmiss]].
      * exists q. split; [by right | exact Hmiss].
      * apply elem_of_cons in Hq as [->|Hq]; [|by exists q].
        apply (resolve_param_throws keys m) in Hmiss as [msg Hmsg]. congruence.
    + simpl. split; [intros _ | by eexists].
      exists param. split; [left|].
      apply (resolve_param_throws keys m). by eexists.
Qed.

Lemma each_param_set_swagger (keys : list key) (m : list value) (req : request)
    (md : metadata) (l : list parameter) (params : gmap string param_entry) :
  each_param keys m (set_swagger req md) l params
  = each_param keys m req l params.
Proof.
  revert params. induction l as [|param l IH]; intros params; simpl;
    [reflexivity|].
  change (resolve_param keys m (set_swagger req md) param)
    with (resolve_param keys m req param).
  destruct (resolve_param keys m req param); [apply IH | reflexivity].
Qed.

(** The [path] case: the capture of the last key that bears the name. *)
Lemma each_key_absent (keys : list key) (index : nat) (m : list value)
    (name : string) (val : value) :
  (∀ k, k ∈ keys → key_name k ≠ name) →
  each_key keys index m name val = val.
Proof.
  revert index val. induction keys as [|k keys IH]; intros index val Hne;
    simpl; [reflexivity|].
  rewrite decide_False by (apply Hne; left).
  apply IH. intros k' Hk'. apply Hne. by right.
Qed.

Lemma each_key_last (keys : list key) (index : nat) (m : list value)
    (name : string) (val : value) (i : nat) (k : key) :
  keys !! i = Some k → key_name k = name →
  (∀ j k', i < j → keys !! j = Some k' → key_name k' ≠ name) →
  each_key keys index m name val = array_get m (index + i + 1).
Proof.
  revert index val i. induction keys as [|k0 keys IH];
    intros index val i Hi Hname Hlast; [discriminate|].
  destruct i as [|i]; simpl in *.
  - injection Hi as ->. rewrite decide_True by exact Hname.
    rewrite each_key_absent.
    + by rewrite Nat.add_0_r.
    + intros k' [j Hj]%list_elem_of_lookup.
      apply (Hlast (S j) k'); [lia | exact Hj].
  - rewrite (IH (S index) _ i Hi Hname).
    + f_equal. lia.
    + intros j k' Hlt Hj. apply (Hlast (S j) k'); [lia | exact Hj].
Qed.



(** C3 (amended).  A declaration whose [in] is absent or empty is resolved
    with query semantics: [req.query[name]], and the configuration error
    when [req.query] is not there.  A declaration whose [in] holds any other
    value outside [path], [query], [header], [body], [formData] is looked up
    nowhere: its value is [undefined] before defaulting and nothing is
    thrown, with or without [req.query]. *)
Theorem unlisted_location_source (keys : list key) (m : list value)
    (req : request) (param : parameter) :
  ¬ known_location (p_in param) →
  source_value keys m req param
  = match p_in param with
    | None => query_semantics req (p_name param)
    | Some location =>
        if String.eqb location "" then query_semantics req (p_name param)
        else Ok VUndefined
    end.
Proof.
  unfold known_location, source_value, paramType, query_semantics.
  intros Hunknown.
  destruct (p_in param) as [location|]; [|reflexivity].
  destruct (String.eqb location "") eqn:Hempty; [reflexivity|].
  repeat match goal with |- context [decide ?P] => destruct (decide P) end;
    try reflexivity; exfalso; apply Hunknown; intuition (subst; auto).
Qed.

(** C8.  When the value is still [undefined] after the look-up and the
    declaration has a schema with a [default], the entry holds that default
    as it is; a value found in the request is kept and the default is not
    used. *)
Theorem default_when_unresolved (keys : list key) (m : list value)
    (req : request) (param : parameter) (val : value) :
  source_value keys m req param = Ok val →
  (∀ schema d,
      val = VUndefined → p_schema param = Some schema →
      obj_get schema "default" = d → d ≠ VUndefined →
      resolve_param keys m req param
      = Ok {| pe_schema := param; pe_value := d |})
  ∧ (val ≠ VUndefined →
     resolve_param keys m req param
     = Ok {| pe_schema := param; pe_value := val |}).
Proof.
  intros Hval. unfold resolve_param, use_default. rewrite Hval. split.
  - intros schema d -> -> <- Hd. simpl.
    destruct (obj_get schema "default"); simpl; congruence.
  - intros Hdef. destruct (p_schema param); [|reflexivity].
    destruct val; simpl; congruence.
Qed.

(** ** The middleware *)

Lemma truthy_falsy (v : value) : truthy v = false ↔ falsy v.
Proof.
  unfold falsy. destruct v as [| |b|n|s|items|props|name]; simpl.
  - intuition.
  - intuition.
  - destruct b; intuition congruence.
  - rewrite negb_false_iff, Z.eqb_eq. intuition congruence.
  - rewrite negb_false_iff, String.eqb_eq. intuition congruence.
  - intuition congruence.
  - intuition congruence.
  - intuition congruence.
Qed.

Lemma missing_source_falsy (req : request) (param : parameter) :
  missing_source req param ↔ falsy_source req param.
Proof.
  unfold missing_source, falsy_source. by rewrite !truthy_falsy.
Qed.


Lemma object_builtin_none (k : string) :
  k ∉ object_inherited ↔ object_builtin k = None.
Proof.
  unfold object_builtin, prototype_builtin.
  destruct (decide (k = "__proto__")) as [->|Hne].
  - split; [|discriminate]. intros Hn. exfalso. apply Hn.
    apply (bool_decide_unpack _). vm_compute. reflexivity.
  - rewrite decide_False by by intros ?%elem_of_nil.
    destruct (decide (k ∈ object_inherited)); split;
      done || discriminate.
Qed.

Lemma swaggerMetadata_read (sw : swagger_object)
    (table : list (string * route)) (req : request) (path : route)
    (m : list value) (operation : operation_value) :
  find_path table (req_pathname req) = Some (path, m) →
  read_operation (r_operations path) (toLowerCase (req_method req))
  = Some operation →
  swaggerMetadata sw table req
  = match each_param (r_keys path) m req
            (union (pi_parameters (r_path path)) (ov_parameters operation)) ∅
    with
    | (params, None) =>
        (set_swagger req
           {| md_path := Some (r_path path);
              md_operation := Some operation;
              md_params := params;
              md_swaggerObject := sw |}, None)
    | (_, Some message) => (req, Some message)
    end.
Proof.
  intros Hfind Hop. unfold swaggerMetadata, init_metadata.
  rewrite Hfind. simpl. rewrite Hop. reflexivity.
Qed.


Lemma req_pathname_set_swagger (req : request) (md : metadata) :
  req_pathname (set_swagger req md) = req_pathname req.
Proof. reflexivity. Qed.

Lemma init_metadata_set_swagger (sw : swagger_object)
    (path : option route) (req : request) (md : metadata) :
  init_metadata sw path (set_swagger req md) = init_metadata sw path req.
Proof. reflexivity. Qed.

Lemma swaggerMetadata_pathname (sw : swagger_object)
    (table : list (string * route)) (req : request) :
  req_pathname (swaggerMetadata sw table req).1 = req_pathname req.
Proof.
  unfold swaggerMetadata.
  destruct (find_path table (req_pathname req)) as [[path m]|]; [|reflexivity].
  destruct (md_operation _); [|reflexivity].
  destruct (each_param _ _ _ _ _) as [params [msg|]]; reflexivity.
Qed.

(** C4 (amended).  For a matched route and the operation read for the
    method, [next] receives an error message exactly when one of the
    declarations processed has the [query] location (named or by default)
    while [req.query] is falsy ([undefined], [null], [false], [0] or the
    empty string), or the [body] or [formData] location while [req.body] is
    falsy: a parsed body or query that is one of these values raises the
    error like a missing one.  The message is one of the two configuration
    errors; in every other case the resolution completes and the metadata
    is attached. *)
Theorem configuration_error_iff (sw : swagger_object)
    (table : list (string * route)) (req : request) (path : route)
    (m : list value) (operation : operation_value) :
  find_path table (req_pathname req) = Some (path, m) →
  read_operation (r_operations path) (toLowerCase (req_method req))
  = Some operation →
  ((∃ message, (swaggerMetadata sw table req).2 = Some message)
   ↔ ∃ param,
       param ∈ union (pi_parameters (r_path path)) (ov_parameters operation)
       ∧ falsy_source req param)
  ∧ (∀ message, (swaggerMetadata sw table req).2 = Some message →
       message = body_error ∨ message = query_error)
  ∧ ((swaggerMetadata sw table req).2 = None →
     ∃ params,
       (swaggerMetadata sw table req).1
       = set_swagger req
           {| md_path := Some (r_path path);
              md_operation := Some operation;
              md_params := params;
              md_swaggerObject := sw |}).
Proof.
  intros Hfind Hop.
  rewrite (swaggerMetadata_read sw table req path m operation Hfind Hop).
  set (l := union _ _).
  assert (Hfalsy : (∃ param, param ∈ l ∧ falsy_source req param)
                   ↔ ∃ param, param ∈ l ∧ missing_source req param).
  { split; intros [param [Hin Hsrc]]; exists param;
      (split; [exact Hin | by apply missing_source_falsy]). }
  rewrite Hfalsy.
  rewrite <- (each_param_throws (r_keys path) m req l ∅).
  split; [|split].
  - destruct (each_param _ _ _ _ _) as [params [msg|]]; simpl; reflexivity.
  - intros message.
    assert (Hmsg : ∀ l0 params0,
      (each_param (r_keys path) m req l0 params0).2 = Some message →
      message = body_error ∨ message = query_error).
    { induction l0 as [|param l0 IH]; intros params0; simpl; [discriminate|].
      unfold resolve_param.
      destruct (source_value _ _ _ param) as [val|msg] eqn:Hsrc; [apply IH|].
      simpl. intros [= ->]. exact (source_value_message _ _ _ _ _ Hsrc). }
    destruct (each_param _ _ _ _ _) as [params [msg|]] eqn:Hloop; simpl;
      [|discriminate].
    intros [= ->]. apply (Hmsg l ∅). by rewrite Hloop.
  - destruct (each_param _ _ _ _ _) as [params [msg|]]; simpl;
      [discriminate | eauto].
Qed.


(** C9.  Over a fixed route table, running the middleware again on the
    request it has just handled gives the same request, the same metadata
    record (path, operation, params, Swagger object) and the same argument
    for [next]. *)
Theorem resolution_is_repeatable (sw : swagger_object)
    (table : list (string * route)) (req : request) :
  swaggerMetadata sw table (swaggerMetadata sw table req).1
  = swaggerMetadata sw table req.
Proof.
  unfold swaggerMetadata. cbv zeta.
  destruct (find_path table (req_pathname req)) as [[path m]|] eqn:Hfind;
    [|cbn [fst]; by rewrite Hfind].
  destruct (md_operation (init_metadata sw (fst <$> Some (path, m)) req))
    as [operation|] eqn:Hop; [|cbn [fst]; by rewrite Hfind, Hop].
  destruct (each_param _ _ _ _ _) as [params [msg|]] eqn:Hloop; cbn [fst].
  - by rewrite Hfind, Hop, Hloop.
  - rewrite req_pathname_set_swagger, Hfind, init_metadata_set_swagger, Hop.
    rewrite each_param_set_swagger, Hloop. reflexivity.
Qed.

(** ** The middleware over the table it builds *)

Lemma collect_operations_fold (props : list (string * operation))
    (ms : list string) (acc : gmap string operation) (method : string) :
  fold_left
    (fun operations method =>
       match lookup_prop props method with
       | Some operation => <[method := operation]> operations
       | None => operations
       end) ms acc !! method
  = if decide (method ∈ ms) then
      match lookup_prop props method with
      | Some operation => Some operation
      | None => acc !! method
      end
    else acc !! method.
Proof.
  revert acc. induction ms as [|m0 ms IH]; intros acc.
  - reflexivity.
  - cbn [fold_left]. rewrite IH. destruct (decide (m0 = method)) as [->|Hne].
    + rewrite (decide_True (P := method ∈ method :: ms)) by left.
      destruct (lookup_prop props method) as [op|] eqn:Hop.
      * rewrite lookup_insert_eq. by destruct (decide (method ∈ ms)).
      * by destruct (decide (method ∈ ms)).
    + assert (Hacc : (match lookup_prop props m0 with
                      | Some operation => <[m0 := operation]> acc
                      | None => acc
                      end) !! method = acc !! method).
      { destruct (lookup_prop props m0); [by rewrite lookup_insert_ne|done]. }
      rewrite Hacc.
      destruct (decide (method ∈ ms)) as [Hin|Hnin].
      * rewrite decide_True by (by right). reflexivity.
      * rewrite decide_False; [reflexivity|].
        intros [->|Hin]%elem_of_cons; [congruence | contradiction].
Qed.

(** The operations of a route are the path's properties under the seven
    method names. *)
Lemma collect_operations_lookup (path : path_item) (method : string) :
  collect_operations path !! method
  = if decide (method ∈ methods) then lookup_prop (pi_props path) method
    else None.
Proof.
  unfold collect_operations. rewrite collect_operations_fold, lookup_empty.
  destruct (decide (method ∈ methods)); [|reflexivity].
  by destruct (lookup_prop (pi_props path) method).
Qed.

Lemma build_paths_elem `{PathCompiler} (sw : swagger_object) (k : string)
    (r : route) :
  (k, r) ∈ build_paths sw →
  ∃ e, e ∈ paths sw ∧ (k, r) = make_route (basePath sw) e.1 e.2.
Proof.
  unfold build_paths. intros Hin.
  apply fold_add_path_elem in Hin as [Hnil|Hex]; [inversion Hnil | exact Hex].
Qed.

Lemma build_paths_operations `{PathCompiler} (sw : swagger_object)
    (k : string) (r : route) :
  (k, r) ∈ build_paths sw → r_operations r = collect_operations (r_path r).
Proof.
  intros [e [_ Heq]]%build_paths_elem.
  assert (Hr : r = (make_route (basePath sw) e.1 e.2).2) by by rewrite <- Heq.
  rewrite Hr. by rewrite make_route_operations, make_route_path.
Qed.



(** C6 (amended).  A request that matches no route, and a request that
    matches a route whose path item declares nothing under its method in
    lower case, that name not being one the object [operations] inherits
    from [Object.prototype], are not errors: [next()] is called without an
    argument, the request is left as it was and no metadata record is
    handed on.  The record the middleware builds first, and then drops, is
    [{path: undefined, operation: undefined, params: {}}] in the first case
    and carries the matched path with [operation = undefined] in the
    second. *)
Theorem unmatched_is_not_an_error `{PathCompiler} (sw : swagger_object)
    (req : request) :
  (find_path (build_paths sw) (req_pathname req) = None →
   swaggerMetadataMiddleware sw req = (req, None)
   ∧ init_metadata sw (fst <$> find_path (build_paths sw) (req_pathname req))
       req
     = {| md_path := None; md_operation := None; md_params := ∅;
          md_swaggerObject := sw |})
  ∧ (∀ path m,
       find_path (build_paths sw) (req_pathname req) = Some (path, m) →
       lookup_prop (pi_props (r_path path)) (toLowerCase (req_method req))
       = None →
       toLowerCase (req_method req) ∉ object_inherited →
       swaggerMetadataMiddleware sw req = (req, None)
       ∧ init_metadata sw
           (fst <$> find_path (build_paths sw) (req_pathname req)) req
         = {| md_path := Some (r_path path); md_operation := None;
              md_params := ∅; md_swaggerObject := sw |}).
Proof.
  unfold swaggerMetadataMiddleware, swaggerMetadata, init_metadata. split.
  - intros ->. split; reflexivity.
  - intros path m Hfind Hundeclared Hinherited. rewrite Hfind. simpl.
    destruct (find_path_elem _ _ _ _ Hfind) as [_ [k Hin]].
    unfold read_operation.
    rewrite (build_paths_operations sw k path Hin), collect_operations_lookup.
    rewrite Hundeclared.
    apply object_builtin_none in Hinherited. rewrite Hinherited.
    destruct (decide (toLowerCase (req_method req) ∈ methods));
      split; reflexivity.
Qed.

(** C2 (amended).  When the path templates of the description compile to
    pairwise distinct pattern strings, the table lists the routes in the
    order the paths are declared, and the first declared template whose
    pattern matches the request path is the one selected: of two templates
    declared A then B that both match (none before A matching), A's route.
    Handling the request does not change what is selected for it. *)
Theorem first_match_wins_distinct_patterns `{PathCompiler}
    (sw : swagger_object) (req : request)
    (before after : list (string * path_item)) (nameA : string)
    (A : path_item) (m : list value) :
  NoDup (map (λ e, (make_route (basePath sw) e.1 e.2).1) (paths sw)) →
  paths sw = before ++ (nameA, A) :: after →
  (∀ e, e ∈ before →
        re_exec (r_re (make_route (basePath sw) e.1 e.2).2) (req_pathname req)
        = None) →
  re_exec (r_re (make_route (basePath sw) nameA A).2) (req_pathname req)
  = Some m →
  build_paths sw = map (λ e, make_route (basePath sw) e.1 e.2) (paths sw)
  ∧ find_path (build_paths sw) (req_pathname req)
    = Some ((make_route (basePath sw) nameA A).2, m)
  ∧ find_path (build_paths sw)
      (req_pathname (swaggerMetadataMiddleware sw req).1)
    = find_path (build_paths sw) (req_pathname req).
Proof.
  intros Hdistinct Hpaths Hbefore HA.
  assert (Htable : build_paths sw
                   = map (λ e, make_route (basePath sw) e.1 e.2) (paths sw)).
  { unfold build_paths. by rewrite fold_add_path_distinct. }
  split; [exact Htable|]. split.
  - rewrite Htable, Hpaths, map_app, find_path_app.
    rewrite find_path_none.
    + simpl. destruct (make_route (basePath sw) nameA A) as [k r]; simpl in *.
      by rewrite HA.
    + intros e [e0 [-> He0]]%list_elem_of_fmap. by apply Hbefore.
  - unfold swaggerMetadataMiddleware. by rewrite swaggerMetadata_pathname.
Qed.


(** ** Behaviour on the sample descriptions *)

(** C1.  The path declares [id] with [in: path] and the operation declares
    [id] with [in: query]: both objects are in the union, the operation's is
    processed last, and the entry for [id] holds the operation's declaration
    and the value of the query string, not the path-level declaration and
    the path segment. *)
Theorem operation_declaration_overrides_path_declaration :
  union (pi_parameters pet_by_id) (Some [id_in_query])
  = [id_in_path; id_in_query]
  ∧ (@swaggerMetadataMiddleware plain_compiler override_api
       (request_of "GET" "/pets/42" (VObj [("id", VStr "7")]) VUndefined)).2
    = None
  ∧ (req_swagger
       (@swaggerMetadataMiddleware plain_compiler override_api
          (request_of "GET" "/pets/42" (VObj [("id", VStr "7")]) VUndefined)).1
     ≫= λ md, md_params md !! "id")
    = Some {| pe_schema := id_in_query; pe_value := VStr "7" |}
  ∧ resolve_param
      (r_keys (@make_route plain_compiler None "/pets/{id}" pet_by_id).2)
      [VStr "/pets/42"; VStr "42"]
      (request_of "GET" "/pets/42" (VObj [("id", VStr "7")]) VUndefined)
      id_in_path
    = Ok {| pe_schema := id_in_path; pe_value := VStr "42" |}.
Proof. repeat split; vm_compute; reflexivity. Qed.

(** C2, as worded, fails: [/pets/{petId}] and [/pets/{id}], declared in
    that order, compile to the same pattern string and both match
    [/pets/42]; the one entry of the table is the second template's, and it
    is the route selected. *)
Lemma later_template_selected_on_same_pattern :
  ¬ @first_declared_selected plain_compiler.
Proof.
  intros Hclaim.
  specialize (Hclaim None "/pets/{petId}" pet_by_petId "/pets/{id}" pet_by_id
                "/pets/42").
  assert (Hnames : "/pets/{petId}" ≠ "/pets/{id}") by discriminate.
  assert (HA : is_Some (re_exec (r_re (@make_route plain_compiler None
                 "/pets/{petId}" pet_by_petId).2) "/pets/42"))
    by (vm_compute; eauto).
  assert (HB : is_Some (re_exec (r_re (@make_route plain_compiler None
                 "/pets/{id}" pet_by_id).2) "/pets/42"))
    by (vm_compute; eauto).
  specialize (Hclaim Hnames HA HB).
  apply (f_equal (fmap r_keys)) in Hclaim.
  vm_compute in Hclaim. discriminate Hclaim.
Qed.

Lemma first_match_wins_distinct_patterns_witness :
  @build_paths plain_compiler overlap_api
  = map (λ e, @make_route plain_compiler (basePath overlap_api) e.1 e.2)
      (paths overlap_api)
  ∧ find_path (@build_paths plain_compiler overlap_api)
      (req_pathname (request_of "GET" "/v1/pets/mine" (VObj []) VUndefined))
    = Some ((@make_route plain_compiler (basePath overlap_api)
               "/pets/{petId}" pet_by_petId).2,
            [VStr "/v1/pets/mine"; VStr "mine"])
  ∧ find_path (@build_paths plain_compiler overlap_api)
      (req_pathname
         (@swaggerMetadataMiddleware plain_compiler overlap_api
            (request_of "GET" "/v1/pets/mine" (VObj []) VUndefined)).1)
    = find_path (@build_paths plain_compiler overlap_api)
        (req_pathname (request_of "GET" "/v1/pets/mine" (VObj []) VUndefined)).
Proof.
  apply (@first_match_wins_distinct_patterns plain_compiler overlap_api
           (request_of "GET" "/v1/pets/mine" (VObj []) VUndefined)
           [] [("/pets/mine", my_pets)]).
  - apply (bool_decide_unpack _). vm_compute. reflexivity.
  - reflexivity.
  - intros e He. inversion He.
  - vm_compute. reflexivity.
Defined.


(** C3, as worded, fails: a declaration with [in: cookie] on a request
    without [req.query] resolves to [undefined] and throws nothing. *)
Lemma cookie_location_is_not_query : ¬ unlisted_location_is_query.
Proof.
  intros Hclaim.
  specialize (Hclaim [] [] (request_of "GET" "/pets/mine" VUndefined VUndefined)
                token_in_cookie).
  assert (Hunknown : ¬ known_location (p_in token_in_cookie)).
  { unfold known_location. simpl. intuition discriminate. }
  specialize (Hclaim Hunknown). vm_compute in Hclaim. discriminate Hclaim.
Qed.

Lemma unlisted_location_source_witness :
  source_value [] []
    (request_of "GET" "/pets/mine" VUndefined VUndefined) limit_with_default
  = Throw query_error
  ∧ source_value [] []
      (request_of "GET" "/pets/mine" (VObj [("token", VStr "t")]) VUndefined)
      token_in_cookie
    = Ok VUndefined.
Proof.
  split.
  - apply (unlisted_location_source [] []
             (request_of "GET" "/pets/mine" VUndefined VUndefined)
             limit_with_default).
    unfold known_location. simpl. intuition discriminate.
  - apply (unlisted_location_source [] []
             (request_of "GET" "/pets/mine" (VObj [("token", VStr "t")])
                VUndefined)
             token_in_cookie).
    unfold known_location. simpl. intuition discriminate.
Defined.

Lemma default_when_unresolved_witness :
  resolve_param [] []
    (request_of "GET" "/pets/mine" (VObj []) VUndefined) limit_with_default
  = Ok {| pe_schema := limit_with_default; pe_value := VNum 20 |}.
Proof.
  destruct (default_when_unresolved [] []
              (request_of "GET" "/pets/mine" (VObj []) VUndefined)
              limit_with_default VUndefined) as [Hdefault _];
    [reflexivity|].
  apply (Hdefault [("type", VStr "integer"); ("default", VNum 20)] (VNum 20));
    [reflexivity | reflexivity | reflexivity | discriminate].
Defined.

Lemma configuration_error_iff_witness :
  ((∃ message,
      (swaggerMetadata my_pets_api (@build_paths plain_compiler my_pets_api)
         (request_of "POST" "/pets/mine" (VObj []) (VNum 0))).2
      = Some message)
   ↔ ∃ param,
       param ∈ [limit_with_default; pet_in_body]
       ∧ falsy_source
           (request_of "POST" "/pets/mine" (VObj []) (VNum 0)) param)
  ∧ (swaggerMetadata my_pets_api (@build_paths plain_compiler my_pets_api)
       (request_of "POST" "/pets/mine" (VObj []) (VNum 0))).2
    = Some body_error.
Proof.
  destruct (configuration_error_iff my_pets_api
              (@build_paths plain_compiler my_pets_api)
              (request_of "POST" "/pets/mine" (VObj []) (VNum 0))
              (@make_route plain_compiler None "/pets/mine" my_pets).2
              [VStr "/pets/mine"]
              (Declared {| operationId := "addPet";
                           op_parameters := Some [pet_in_body] |}))
    as (Hiff & _ & _).
  - vm_compute. reflexivity.
  - vm_compute. reflexivity.
  - split; [exact Hiff | vm_compute; reflexivity].
Defined.

(** C4, as worded, fails: a request whose body was parsed, to the number
    [0], and whose query was parsed too, gets the configuration error for a
    [body] declaration, although no declaration reads data that the request
    does not carry. *)
Lemma parsed_falsy_body_raises_the_error : ¬ error_iff_source_not_parsed.
Proof.
  intros Hclaim.
  destruct (Hclaim my_pets_api (@build_paths plain_compiler my_pets_api)
              (request_of "POST" "/pets/mine" (VObj []) (VNum 0))
              (@make_route plain_compiler None "/pets/mine" my_pets).2
              [VStr "/pets/mine"]
              {| operationId := "addPet"; op_parameters := Some [pet_in_body] |})
    as [Hraised _].
  - vm_compute. reflexivity.
  - vm_compute. reflexivity.
  - destruct Hraised as [param [_ [[_ Hquery]|[_ Hbody]]]].
    + exists body_error. vm_compute. reflexivity.
    + discriminate Hquery.
    + discriminate Hbody.
Qed.


Lemma unmatched_is_not_an_error_witness :
  @swaggerMetadataMiddleware plain_compiler overlap_api
    (request_of "GET" "/unknown" (VObj []) VUndefined)
  = (request_of "GET" "/unknown" (VObj []) VUndefined, None)
  ∧ @swaggerMetadataMiddleware plain_compiler overlap_api
      (request_of "DELETE" "/v1/pets/42" (VObj []) VUndefined)
    = (request_of "DELETE" "/v1/pets/42" (VObj []) VUndefined, None)
  ∧ init_metadata overlap_api
      (fst <$> find_path (@build_paths plain_compiler overlap_api)
                 "/v1/pets/42")
      (request_of "DELETE" "/v1/pets/42" (VObj []) VUndefined)
    = {| md_path := Some pet_by_petId; md_operation := None; md_params := ∅;
         md_swaggerObject := overlap_api |}.
Proof.
  split.
  - apply (@unmatched_is_not_an_error plain_compiler overlap_api
             (request_of "GET" "/unknown" (VObj []) VUndefined)).
    vm_compute. reflexivity.
  - apply (proj2 (@unmatched_is_not_an_error plain_compiler overlap_api
                    (request_of "DELETE" "/v1/pets/42" (VObj []) VUndefined))
             (@make_route plain_compiler (Some "/v1") "/pets/{petId}"
                pet_by_petId).2
             [VStr "/v1/pets/42"; VStr "42"]).
    + vm_compute. reflexivity.
    + vm_compute. reflexivity.
    + intros Hin. vm_compute in Hin.
      repeat (apply elem_of_cons in Hin as [Hin|Hin]; [discriminate Hin|]).
      inversion Hin.
Defined.

(** C6, as worded, fails: for a request to the undeclared path [/unknown]
    nothing is attached to the request, so what is handed on is no metadata
    record, [{path: undefined, operation: undefined, params: {}}] or
    other. *)
Lemma unmatched_request_gets_no_record :
  ¬ @unmatched_yields_a_record plain_compiler.
Proof.
  intros Hclaim.
  destruct (Hclaim overlap_api
              (request_of "GET" "/unknown" (VObj []) VUndefined))
    as [Hnone _].
  destruct Hnone as [_ Hrecord]; [vm_compute; reflexivity|].
  vm_compute in Hrecord. discriminate Hrecord.
Qed.

(** ** The plain compiler on instantiated templates *)

#[local] Arguments String.append !_ _ / : simpl nomatch.

























Lemma source_value_path (keys : list key) (m : list value) (req : request)
    (param : parameter) :
  p_in param = Some "path" →
  source_value keys m req param
  = Ok (each_key keys 0 m (p_name param) VUndefined).
Proof.
  intros Hin. unfold source_value, paramType. rewrite Hin. simpl.
  repeat match goal with |- context [decide ?P] => destruct (decide P) end;
    try reflexivity; exfalso; intuition congruence.
Qed.





(** ** Further runs on the sample descriptions *)

(** The example of the specification: [/pets/{petId}] under the prefix
    [/v1], [petId] declared for the path, and [GET /v1/pets/42]. *)
Example pets_example :
  @swaggerMetadataMiddleware plain_compiler overlap_api
    (request_of "GET" "/v1/pets/42" VUndefined VUndefined)
  = (set_swagger (request_of "GET" "/v1/pets/42" VUndefined VUndefined)
       {| md_path := Some pet_by_petId;
          md_operation :=
            Some (Declared {| operationId := "getPetById";
                              op_parameters := None |});
          md_params :=
            {[ "petId" := {| pe_schema := petId_in_path;
                             pe_value := VStr "42" |} ]};
          md_swaggerObject := overlap_api |},
     None).
Proof. vm_compute. reflexivity. Qed.

(** A placeholder that shares its segment with other text takes the
    shortest value: [/{a}-{b}] on [/x-y-z] captures ["x"] and ["y-z"]. *)
Example placeholder_within_segment :
  re_exec (r_re (@make_route plain_compiler None "/{a}-{b}" my_pets).2)
    "/x-y-z"
  = Some [VStr "/x-y-z"; VStr "x"; VStr "y-z"].
Proof. vm_compute. reflexivity. Qed.

(** The pattern is matched without regard to case and with an optional
    trailing [/]. *)
Example case_and_trailing_slash :
  re_exec (r_re (@make_route plain_compiler (Some "/v1") "/pets/{petId}"
                   pet_by_petId).2) "/V1/Pets/42/"
  = Some [VStr "/V1/Pets/42/"; VStr "42"].
Proof. vm_compute. reflexivity. Qed.

(** * Further properties of the middleware *)

(** ** The route table as a whole *)

Lemma lookup_prop_app {A : Type} (o1 o2 : list (string * A)) (k : string) :
  lookup_prop (o1 ++ o2) k
  = match lookup_prop o1 k with
    | Some v => Some v
    | None => lookup_prop o2 k
    end.
Proof.
  induction o1 as [|[k0 v0] o1 IH]; simpl; [reflexivity|].
  destruct (decide (k0 = k)); [reflexivity | exact IH].
Qed.

Lemma filter_all {A : Type} (P : A → Prop) `{!∀ x, Decision (P x)}
    (l : list A) :
  (∀ x, x ∈ l → P x) → filter P l = l.
Proof.
  induction l as [|x l IH]; intros Hall; [reflexivity|].
  rewrite filter_cons_True by (apply Hall; left).
  f_equal. apply IH. intros y Hy. apply Hall. by right.
Qed.

Section RouteTableOrder.
Context `{PathCompiler}.
Variable base : option string.

Local Abbreviation entry_of e := (make_route base e.1 e.2).

Lemma fold_add_path_keys (l : list (string * path_item))
    (acc : list (string * route)) :
  (fold_left (add_path base) l acc).*1
  = acc.*1 ++ filter (λ k, k ∉ acc.*1) (nub (map (λ e, (entry_of e).1) l)).
Proof.
  revert acc. induction l as [|e l IH]; intros acc.
  - simpl. by rewrite app_nil_r.
  - cbn [fold_left map nub]. rewrite IH, add_path_set_prop, set_prop_keys.
    destruct (decide ((entry_of e).1 ∈ acc.*1)) as [Hin|Hnin].
    + rewrite filter_cons_False by (intros Hn; by apply Hn).
      rewrite list_filter_filter_l; [reflexivity|].
      intros k Hk ->. contradiction.
    + rewrite filter_cons_True by exact Hnin.
      rewrite <- app_assoc. cbn [app]. do 2 f_equal.
      rewrite list_filter_filter. apply list_filter_iff.
      intros k. rewrite not_elem_of_app, list_elem_of_singleton. tauto.
Qed.

Lemma fold_add_path_lookup (l : list (string * path_item))
    (acc : list (string * route)) (k : string) :
  lookup_prop (fold_left (add_path base) l acc) k
  = match lookup_prop (reverse (map (λ e, entry_of e) l)) k with
    | Some r => Some r
    | None => lookup_prop acc k
    end.
Proof.
  revert acc. induction l as [|e l IH]; intros acc; [reflexivity|].
  cbn [fold_left map]. rewrite IH, reverse_cons, lookup_prop_app.
  destruct (lookup_prop (reverse (map (λ e0, entry_of e0) l)) k);
    [reflexivity|].
  rewrite add_path_set_prop, lookup_prop_set_prop.
  destruct (entry_of e) as [k0 r0]. simpl.
  destruct (decide (k0 = k)); reflexivity.
Qed.

End RouteTableOrder.

(** X1.  The keys of the table are the distinct pattern strings of the
    declared paths, each at the place of the first path that compiles to
    it: a later path with the same string adds no key and does not move
    the key. *)
Theorem table_keys_in_first_declaration_order `{PathCompiler}
    (sw : swagger_object) :
  (build_paths sw).*1
  = nub (map (λ e, (make_route (basePath sw) e.1 e.2).1) (paths sw))
  ∧ (length (build_paths sw) ≤ length (paths sw))%nat.
Proof.
  assert (Hkeys : (build_paths sw).*1
    = nub (map (λ e, (make_route (basePath sw) e.1 e.2).1) (paths sw))).
  { unfold build_paths. rewrite fold_add_path_keys. simpl.
    apply filter_all. intros k _. apply not_elem_of_nil. }
  split; [exact Hkeys|].
  rewrite <- (length_fmap fst (build_paths sw)), Hkeys.
  rewrite <- (length_map (λ e, (make_route (basePath sw) e.1 e.2).1) (paths sw)).
  generalize (map (λ e, (make_route (basePath sw) e.1 e.2).1) (paths sw)).
  intros l. induction l as [|k l IH]; simpl; [lia|].
  pose proof (length_filter (λ k', k' ≠ k) (nub l)). lia.
Qed.

(** X2.  Reading the table at a pattern string gives the entry of the
    last declared path that compiles to that string, and nothing when no
    path does. *)
Theorem table_entry_is_last_declared `{PathCompiler} (sw : swagger_object)
    (reStr : string) :
  lookup_prop (build_paths sw) reStr
  = lookup_prop
      (reverse (map (λ e, make_route (basePath sw) e.1 e.2) (paths sw)))
      reStr.
Proof.
  unfold build_paths. rewrite fold_add_path_lookup.
  by destruct (lookup_prop _ reStr).
Qed.

(** X3.  The operations of a route are the properties of its path item
    under the seven method names and nothing else: a property under
    another name is never an operation of the route. *)
Theorem route_operations_are_the_seven_methods `{PathCompiler}
    (base : option string) (pathName : string) (path : path_item)
    (method : string) (operation : operation) :
  r_operations (make_route base pathName path).2 !! method = Some operation
  ↔ method ∈ methods ∧ lookup_prop (pi_props path) method = Some operation.
Proof.
  rewrite make_route_operations, collect_operations_lookup.
  destruct (decide (method ∈ methods)); split;
    [by intros ? | by intros [_ ?] | discriminate | by intros [? _]].
Qed.

(** X4.  [_.find] over the table: a route is selected with a match array
    exactly when its pattern gives that array on the path and no entry
    before it in the table matches; no route is selected exactly when no
    pattern of the table matches. *)
Theorem find_path_is_first_match (table : list (string * route))
    (rPath : string) :
  (∀ r m,
     find_path table rPath = Some (r, m)
     ↔ ∃ t1 k t2,
         table = t1 ++ (k, r) :: t2
         ∧ (∀ e, e ∈ t1 → re_exec (r_re e.2) rPath = None)
         ∧ re_exec (r_re r) rPath = Some m)
  ∧ (find_path table rPath = None
     ↔ ∀ e, e ∈ table → re_exec (r_re e.2) rPath = None).
Proof.
  split.
  - intros r m. split.
    + induction table as [|[k0 r0] table IH]; simpl; [discriminate|].
      destruct (re_exec (r_re r0) rPath) as [m0|] eqn:Hexec.
      * intros [= <- <-]. exists [], k0, table. split; [reflexivity|].
        split; [by intros e ?%elem_of_nil | exact Hexec].
      * intros Hfind. destruct (IH Hfind) as (t1 & k & t2 & -> & Hnone & Hm).
        exists ((k0, r0) :: t1), k, t2. split; [reflexivity|].
        split; [|exact Hm].
        intros e [->|He]%elem_of_cons; [exact Hexec | by apply Hnone].
    + intros (t1 & k & t2 & -> & Hnone & Hm).
      rewrite find_path_app, (find_path_none t1 rPath Hnone). simpl.
      by rewrite Hm.
  - split; [|apply find_path_none].
    induction table as [|[k0 r0] table IH]; simpl.
    + by intros _ e ?%elem_of_nil.
    + destruct (re_exec (r_re r0) rPath) eqn:Hexec; [discriminate|].
      intros Hfind e [->|He]%elem_of_cons; [exact Hexec | by apply IH].
Qed.

(** ** The method of the request *)

Lemma each_param_set_method (keys : list key) (m : list value) (req : request)
    (method : string) (l : list parameter)
    (params : gmap string param_entry) :
  each_param keys m (set_method req method) l params
  = each_param keys m req l params.
Proof.
  revert params. induction l as [|param l IH]; intros params; simpl;
    [reflexivity|].
  change (resolve_param keys m (set_method req method) param)
    with (resolve_param keys m req param).
  destruct (resolve_param keys m req param); [apply IH | reflexivity].
Qed.

(** X5.  A request whose method, in lower case, is neither one of [get],
    [put], [post], [delete], [options], [head], [patch] nor a name the
    object [operations] inherits from [Object.prototype] is passed on as it
    is, without an error and without metadata, whatever the matched path
    item declares under that name. *)
Theorem other_methods_get_no_metadata `{PathCompiler} (sw : swagger_object)
    (req : request) :
  toLowerCase (req_method req) ∉ methods →
  toLowerCase (req_method req) ∉ object_inherited →
  swaggerMetadataMiddleware sw req = (req, None).
Proof.
  intros Hmethod Hinherited. unfold swaggerMetadataMiddleware, swaggerMetadata.
  cbv zeta.
  destruct (find_path (build_paths sw) (req_pathname req)) as [[path m]|]
    eqn:Hfind; [|reflexivity].
  destruct (find_path_elem _ _ _ _ Hfind) as [_ [k Hin]].
  unfold init_metadata, read_operation. simpl.
  rewrite (build_paths_operations sw k path Hin), collect_operations_lookup.
  rewrite decide_False by exact Hmethod.
  apply object_builtin_none in Hinherited. by rewrite Hinherited.
Qed.

Lemma other_methods_get_no_metadata_witness :
  lookup_prop (pi_props traced_pets) "trace"
  = Some {| operationId := "tracePets"; op_parameters := None |}
  ∧ @swaggerMetadataMiddleware plain_compiler traced_api
      (request_of "TRACE" "/pets" (VObj []) VUndefined)
    = (request_of "TRACE" "/pets" (VObj []) VUndefined, None).
Proof.
  split; [reflexivity|].
  apply (@other_methods_get_no_metadata plain_compiler traced_api
           (request_of "TRACE" "/pets" (VObj []) VUndefined)).
  - intros Hin. vm_compute in Hin.
    repeat (apply elem_of_cons in Hin as [Hin|Hin]; [discriminate Hin|]).
    inversion Hin.
  - intros Hin. vm_compute in Hin.
    repeat (apply elem_of_cons in Hin as [Hin|Hin]; [discriminate Hin|]).
    inversion Hin.
Defined.

(** X6.  The case of the method does not matter: a request whose method
    differs only by case gets the same argument for [next] and the same
    [req.swagger]. *)
Theorem method_case_is_ignored (sw : swagger_object)
    (table : list (string * route)) (req : request) (method : string) :
  toLowerCase method = toLowerCase (req_method req) →
  (swaggerMetadata sw table (set_method req method)).2
  = (swaggerMetadata sw table req).2
  ∧ req_swagger (swaggerMetadata sw table (set_method req method)).1
    = req_swagger (swaggerMetadata sw table req).1.
Proof.
  intros Hcase. unfold swaggerMetadata, init_metadata. cbv zeta.
  change (req_pathname (set_method req method)) with (req_pathname req).
  change (req_method (set_method req method)) with method.
  rewrite Hcase.
  destruct (find_path table (req_pathname req)) as [[path m]|];
    [|split; reflexivity].
  simpl.
  destruct (read_operation (r_operations path) (toLowerCase (req_method req)))
    as [op|]; [|split; reflexivity].
  rewrite each_param_set_method.
  destruct (each_param _ _ _ _ _) as [params [msg|]]; split; reflexivity.
Qed.

Lemma method_case_is_ignored_witness :
  (swaggerMetadata overlap_api (@build_paths plain_compiler overlap_api)
     (set_method (request_of "GET" "/v1/pets/42" VUndefined VUndefined)
        "gEt")).2
  = (swaggerMetadata overlap_api (@build_paths plain_compiler overlap_api)
       (request_of "GET" "/v1/pets/42" VUndefined VUndefined)).2
  ∧ req_swagger
      (swaggerMetadata overlap_api (@build_paths plain_compiler overlap_api)
         (set_method (request_of "GET" "/v1/pets/42" VUndefined VUndefined)
            "gEt")).1
    = req_swagger
        (swaggerMetadata overlap_api (@build_paths plain_compiler overlap_api)
           (request_of "GET" "/v1/pets/42" VUndefined VUndefined)).1.
Proof.
  apply (method_case_is_ignored overlap_api
           (@build_paths plain_compiler overlap_api)
           (request_of "GET" "/v1/pets/42" VUndefined VUndefined) "gEt").
  reflexivity.
Defined.

(** ** The union of the declarations *)

Lemma same_object_exists (p : parameter) (result : list parameter) :
  existsb (same_object p) result = true ↔ p_ref p ∈ p_ref <$> result.
Proof.
  rewrite existsb_exists, list_elem_of_fmap. unfold same_object.
  split.
  - intros [q [Hq Heq%Nat.eqb_eq]]. exists q.
    split; [exact Heq | by apply list_elem_of_In].
  - intros [q [Heq Hq]]. exists q.
    split; [by apply list_elem_of_In | by apply Nat.eqb_eq].
Qed.

Lemma baseUniq_fold (l acc : list parameter) :
  ∃ kept,
    fold_left
      (fun result p =>
         if existsb (same_object p) result then result else result ++ [p])
      l acc = acc ++ kept
    ∧ kept `sublist_of` l
    ∧ (NoDup (p_ref <$> acc) → NoDup (p_ref <$> (acc ++ kept)))
    ∧ (∀ x, x ∈ p_ref <$> l → x ∈ p_ref <$> (acc ++ kept))
    ∧ (NoDup (p_ref <$> (acc ++ l)) → kept = l).
Proof.
  revert acc. induction l as [|p l IH]; intros acc.
  - exists []. simpl. rewrite app_nil_r.
    split; [reflexivity|]. split; [constructor|]. split; [done|].
    split; [by intros x ?%elem_of_nil | done].
  - cbn [fold_left].
    destruct (existsb (same_object p) acc) eqn:Hseen.
    + destruct (IH acc) as (kept & Hfold & Hsub & Hnd & Hin & Hdistinct).
      exists kept. split; [exact Hfold|].
      split; [by apply sublist_cons|]. split; [exact Hnd|]. split.
      * intros x [->|Hx]%elem_of_cons; [|by apply Hin].
        rewrite fmap_app. apply elem_of_app. left.
        by apply same_object_exists.
      * intros Hnodup. exfalso.
        rewrite fmap_app in Hnodup. apply NoDup_app in Hnodup as (_ & Hd & _).
        apply (Hd (p_ref p)); [by apply same_object_exists | left].
    + destruct (IH (acc ++ [p])) as (kept & Hfold & Hsub & Hnd & Hin & Hdistinct).
      exists (p :: kept). rewrite Hfold, <- app_assoc.
      split; [reflexivity|]. split; [by apply sublist_skip|].
      replace (acc ++ p :: kept) with ((acc ++ [p]) ++ kept)
        by (by rewrite <- app_assoc).
      split; [|split].
      * intros Hacc. apply Hnd. rewrite fmap_app. apply NoDup_app.
        split; [exact Hacc|]. split; [|apply NoDup_singleton].
        intros x Hx Hx'. apply list_elem_of_singleton in Hx' as ->.
        apply same_object_exists in Hx. congruence.
      * intros x [->|Hx]%elem_of_cons; [|by apply Hin].
        rewrite !fmap_app. apply elem_of_app. left. apply elem_of_app.
        right. left.
      * intros Hnodup. f_equal. apply Hdistinct.
        by rewrite <- app_assoc.
Qed.

(** X7.  The union of the path's and the operation's declarations holds
    every declaration object of the two lists once: it is a sublist of the
    path's declarations followed by the operation's, without two objects of
    the same identity, and it leaves no object out. *)
Theorem union_holds_each_object_once (a b : option (list parameter)) :
  union a b `sublist_of` (default [] a ++ default [] b)
  ∧ NoDup (p_ref <$> union a b)
  ∧ ∀ p, p ∈ default [] a ++ default [] b →
         p_ref p ∈ p_ref <$> union a b.
Proof.
  unfold union, baseUniq.
  destruct (baseUniq_fold (default [] a ++ default [] b) [])
    as (kept & -> & Hsub & Hnd & Hin & _).
  simpl in *. split; [exact Hsub|]. split; [apply Hnd; constructor|].
  intros p Hp. apply Hin. apply list_elem_of_fmap. by exists p.
Qed.

(** X8.  When the declaration objects of the two lists are pairwise
    distinct, the union is the path's declarations followed by the
    operation's: nothing is dropped, whatever the names. *)
Theorem union_of_distinct_objects (a b : option (list parameter)) :
  NoDup (p_ref <$> (default [] a ++ default [] b)) →
  union a b = default [] a ++ default [] b.
Proof.
  intros Hdistinct. unfold union, baseUniq.
  destruct (baseUniq_fold (default [] a ++ default [] b) [])
    as (kept & -> & _ & _ & _ & Hkept).
  simpl. by apply Hkept.
Qed.

Lemma union_of_distinct_objects_witness :
  union (Some [id_in_path]) (Some [id_in_query; limit_with_default])
  = [id_in_path; id_in_query; limit_with_default].
Proof.
  apply (union_of_distinct_objects (Some [id_in_path])
           (Some [id_in_query; limit_with_default])).
  apply (bool_decide_unpack _). vm_compute. reflexivity.
Defined.

(** ** What the middleware leaves on the request *)

Lemma attached_metadata_inv (sw : swagger_object)
    (table : list (string * route)) (req : request) (md : metadata) :
  req_swagger req = None →
  req_swagger (swaggerMetadata sw table req).1 = Some md →
  ∃ path m operation params,
    find_path table (req_pathname req) = Some (path, m)
    ∧ read_operation (r_operations path) (toLowerCase (req_method req))
      = Some operation
    ∧ each_param (r_keys path) m req
        (union (pi_parameters (r_path path)) (ov_parameters operation)) ∅
      = (params, None)
    ∧ md = {| md_path := Some (r_path path);
              md_operation := Some operation;
              md_params := params;
              md_swaggerObject := sw |}
    ∧ swaggerMetadata sw table req = (set_swagger req md, None).
Proof.
  intros Hnone. unfold swaggerMetadata, init_metadata. cbv zeta.
  destruct (find_path table (req_pathname req)) as [[path m]|];
    [|simpl; congruence].
  simpl.
  destruct (read_operation (r_operations path) (toLowerCase (req_method req)))
    as [operation|] eqn:Hop; [|simpl; congruence].
  destruct (each_param _ _ _ _ _) as [params [msg|]] eqn:Hloop;
    [simpl; congruence|].
  simpl. intros [= <-]. exists path, m, operation, params.
  split; [reflexivity|]. split; [exact Hop|]. split; [exact Hloop|].
  split; reflexivity.
Qed.


(** X9.  Metadata is attached to a request only when a route matched,
    reading [operations] of the route at the method in lower case gave a
    value (a declared operation, or a built-in the object inherits), and
    [next] is called without an error; it then names the path item of that
    route, that value as operation and the Swagger object the middleware
    was built from. *)
Theorem attached_metadata_names_the_match (sw : swagger_object)
    (table : list (string * route)) (req : request) (md : metadata) :
  req_swagger req = None →
  req_swagger (swaggerMetadata sw table req).1 = Some md →
  (swaggerMetadata sw table req).2 = None
  ∧ md_swaggerObject md = sw
  ∧ ∃ path m operation,
      find_path table (req_pathname req) = Some (path, m)
      ∧ read_operation (r_operations path) (toLowerCase (req_method req))
        = Some operation
      ∧ md_path md = Some (r_path path)
      ∧ md_operation md = Some operation.
Proof.
  intros Hnone Hmd.
  destruct (attached_metadata_inv sw table req md Hnone Hmd)
    as (path & m & operation & params & Hfind & Hop & _ & -> & ->).
  split; [reflexivity|]. split; [reflexivity|].
  by exists path, m, operation.
Qed.

Lemma attached_metadata_names_the_match_witness :
  (swaggerMetadata overlap_api (@build_paths plain_compiler overlap_api)
     (request_of "GET" "/v1/pets/42" VUndefined VUndefined)).2 = None
  ∧ ∃ md,
      req_swagger
        (swaggerMetadata overlap_api (@build_paths plain_compiler overlap_api)
           (request_of "GET" "/v1/pets/42" VUndefined VUndefined)).1
      = Some md
      ∧ md_swaggerObject md = overlap_api.
Proof.
  destruct (attached_metadata_names_the_match overlap_api
              (@build_paths plain_compiler overlap_api)
              (request_of "GET" "/v1/pets/42" VUndefined VUndefined)
              {| md_path := Some pet_by_petId;
                 md_operation :=
                   Some (Declared {| operationId := "getPetById";
                                     op_parameters := None |});
                 md_params :=
                   {[ "petId" := {| pe_schema := petId_in_path;
                                    pe_value := VStr "42" |} ]};
                 md_swaggerObject := overlap_api |})
    as (Hnext & Hsw & _).
  - reflexivity.
  - vm_compute. reflexivity.
  - split; [exact Hnext|]. eexists. split; [|exact Hsw].
    vm_compute. reflexivity.
Defined.





(** X12.  A method that is, in lower case, a name the object
    [operations] inherits from [Object.prototype] ([constructor],
    [__proto__]) is taken for a method with an operation on every matched
    route: the built-in found there stands as the operation, the
    declarations of the path alone are resolved, and the metadata is
    attached, or the configuration error passed to [next], as for a declared
    operation. *)
Theorem inherited_name_is_taken_for_an_operation `{PathCompiler}
    (sw : swagger_object) (req : request) (path : route) (m : list value) :
  find_path (build_paths sw) (req_pathname req) = Some (path, m) →
  toLowerCase (req_method req) ∈ object_inherited →
  ∃ builtin,
    object_builtin (toLowerCase (req_method req)) = Some builtin
    ∧ swaggerMetadataMiddleware sw req
      = match each_param (r_keys path) m req
                (union (pi_parameters (r_path path)) None) ∅ with
        | (params, None) =>
            (set_swagger req
               {| md_path := Some (r_path path);
                  md_operation := Some (Inherited builtin);
                  md_params := params;
                  md_swaggerObject := sw |}, None)
        | (_, Some message) => (req, Some message)
        end.
Proof.
  intros Hfind Hinherited.
  destruct (object_builtin (toLowerCase (req_method req))) as [builtin|]
    eqn:Hbuiltin.
  2: { by apply object_builtin_none in Hbuiltin. }
  exists builtin. split; [reflexivity|].
  unfold swaggerMetadataMiddleware.
  apply (swaggerMetadata_read sw (build_paths sw) req path m
           (Inherited builtin) Hfind).
  destruct (find_path_elem _ _ _ _ Hfind) as [_ [k Hin]].
  unfold read_operation.
  rewrite (build_paths_operations sw k path Hin), collect_operations_lookup.
  rewrite decide_False; [by rewrite Hbuiltin|].
  intros Hmethod. clear Hbuiltin. revert Hinherited Hmethod.
  generalize (toLowerCase (req_method req)). intros k0 Hk0 Hm.
  unfold methods in Hm. unfold object_inherited in Hk0.
  repeat (apply elem_of_cons in Hm as [->|Hm];
          [vm_compute in Hk0;
           repeat (apply elem_of_cons in Hk0 as [Hk0|Hk0];
                   [discriminate Hk0|]);
           inversion Hk0|]).
  inversion Hm.
Qed.

Lemma inherited_name_is_taken_for_an_operation_witness :
  @swaggerMetadataMiddleware plain_compiler overlap_api
    (request_of "CONSTRUCTOR" "/v1/pets/42" VUndefined VUndefined)
  = (set_swagger
       (request_of "CONSTRUCTOR" "/v1/pets/42" VUndefined VUndefined)
       {| md_path := Some pet_by_petId;
          md_operation := Some (Inherited "Object.prototype.constructor");
          md_params :=
            {[ "petId" := {| pe_schema := petId_in_path;
                             pe_value := VStr "42" |} ]};
          md_swaggerObject := overlap_api |},
     None).
Proof.
  destruct (@inherited_name_is_taken_for_an_operation plain_compiler
              overlap_api
              (request_of "CONSTRUCTOR" "/v1/pets/42" VUndefined VUndefined)
              (@make_route plain_compiler (Some "/v1") "/pets/{petId}"
                 pet_by_petId).2
              [VStr "/v1/pets/42"; VStr "42"])
    as (builtin & Hbuiltin & Hrun).
  - vm_compute. reflexivity.
  - apply (bool_decide_unpack _). vm_compute. reflexivity.
  - rewrite Hrun. vm_compute in Hbuiltin. injection Hbuiltin as <-.
    vm_compute. reflexivity.
Defined.

(** ** Errors and values of single declarations *)

Lemma source_value_missing (keys : list key) (m : list value) (req : request)
    (param : parameter) :
  missing_source req param →
  source_value keys m req param
  = Throw (if decide (paramType param = "query") then query_error
           else body_error).
Proof.
  unfold missing_source, source_value.
  intros [[Hq Hquery]|[Hb Hbody]].
  - rewrite Hq, Hquery. reflexivity.
  - rewrite decide_True by exact Hb. rewrite Hbody. simpl.
    rewrite decide_False; [reflexivity|].
    intros Hq. destruct Hb as [Hb|Hb]; congruence.
Qed.




(** X14.  For a declaration with the [body] or [formData] location the
    body counts as missing exactly when [req.body] is [undefined], [null],
    [false], [0] or the empty string: a parsed body that is one of these
    values raises the configuration error, and any other body, the empty
    object included, is read at the declaration's name. *)
Theorem falsy_body_is_a_missing_body (keys : list key) (m : list value)
    (req : request) (param : parameter) :
  paramType param = "body" ∨ paramType param = "formData" →
  (falsy (req_body req) ↔ source_value keys m req param = Throw body_error)
  ∧ (¬ falsy (req_body req) →
     source_value keys m req param
     = Ok (get_prop (req_body req) (p_name param))).
Proof.
  intros Hbody. unfold source_value. rewrite decide_True by exact Hbody.
  rewrite <- truthy_falsy.
  destruct (truthy (req_body req)); simpl; split; try split;
    congruence.
Qed.

Lemma falsy_body_is_a_missing_body_witness :
  source_value [] [] (request_of "POST" "/pets/mine" (VObj []) (VStr ""))
    pet_in_body = Throw body_error
  ∧ source_value [] [] (request_of "POST" "/pets/mine" (VObj []) (VObj []))
      pet_in_body = Ok VUndefined.
Proof.
  split.
  - apply (falsy_body_is_a_missing_body [] []
             (request_of "POST" "/pets/mine" (VObj []) (VStr ""))
             pet_in_body); [by left|].
    unfold falsy. simpl. tauto.
  - apply (falsy_body_is_a_missing_body [] []
             (request_of "POST" "/pets/mine" (VObj []) (VObj []))
             pet_in_body); [by left|].
    unfold falsy. simpl. intuition discriminate.
Defined.

(** X15.  Whatever the compiled pattern, a declaration with the [path]
    location never needs [req.query] or [req.body]: its value is the
    element of the match array that follows the index of the last key
    bearing its name, and [undefined] when no key bears its name. *)
Theorem path_declaration_reads_the_last_key (keys : list key)
    (m : list value) (req : request) (param : parameter) :
  p_in param = Some "path" →
  (∀ i k,
     keys !! i = Some k → key_name k = p_name param →
     (∀ j k', i < j → keys !! j = Some k' → key_name k' ≠ p_name param) →
     source_value keys m req param = Ok (array_get m (i + 1)))
  ∧ ((∀ k, k ∈ keys → key_name k ≠ p_name param) →
     source_value keys m req param = Ok VUndefined).
Proof.
  intros Hin. rewrite source_value_path by exact Hin. split.
  - intros i k Hi Hname Hlast.
    by rewrite (each_key_last keys 0 m (p_name param) VUndefined i k).
  - intros Habsent. by rewrite each_key_absent.
Qed.

Lemma path_declaration_reads_the_last_key_witness :
  source_value [{| key_name := "id" |}; {| key_name := "id" |}]
    [VStr "/a/1/b/2"; VStr "1"; VStr "2"]
    (request_of "GET" "/a/1/b/2" VUndefined VUndefined) id_in_path
  = Ok (VStr "2")
  ∧ source_value [{| key_name := "id" |}]
      [VStr "/a/1"; VStr "1"]
      (request_of "GET" "/a/1" VUndefined VUndefined) petId_in_path
    = Ok VUndefined.
Proof.
  split.
  - apply (proj1 (path_declaration_reads_the_last_key
                    [{| key_name := "id" |}; {| key_name := "id" |}]
                    [VStr "/a/1/b/2"; VStr "1"; VStr "2"]
                    (request_of "GET" "/a/1/b/2" VUndefined VUndefined)
                    id_in_path eq_refl) 1 {| key_name := "id" |});
      [reflexivity | reflexivity |].
    intros [|[|j]] k' Hlt Hj; [lia | lia | discriminate Hj].
  - apply (proj2 (path_declaration_reads_the_last_key
                    [{| key_name := "id" |}]
                    [VStr "/a/1"; VStr "1"]
                    (request_of "GET" "/a/1" VUndefined VUndefined)
                    petId_in_path eq_refl)).
    intros k Hk. apply list_elem_of_singleton in Hk as ->. discriminate.
Defined.

(** * The command line *)

Lemma each_document_with_swagger_object (pathsAndOrUrls : list string)
    (documents : list value) (index : nat) (rd : resolved_documents) :
  is_Some (rd_swaggerObject rd) →
  each_document pathsAndOrUrls documents (S index) rd = Continue rd.
Proof.
  intros [so Hso]. revert index.
  induction documents as [|d documents IH]; intros index; [reflexivity|].
  cbn [each_document]. unfold collect_document.
  destruct (truthy d); simpl; [|apply IH].
  rewrite Hso. apply IH.
Qed.

Lemma each_document_declarations (pathsAndOrUrls : list string)
    (documents : list value) (index : nat) (rl : option value)
    (acc : option (list value)) :
  each_document pathsAndOrUrls documents (S index)
    {| rd_swaggerObject := None; rd_resourceListing := rl;
       rd_apiDeclarations := acc |}
  = Continue {| rd_swaggerObject := None; rd_resourceListing := rl;
                rd_apiDeclarations := kept_declarations acc documents |}.
Proof.
  revert index acc.
  induction documents as [|d documents IH]; intros index acc; [reflexivity|].
  cbn [each_document]. unfold collect_document, kept_declarations.
  rewrite filter_cons.
  destruct (truthy d) eqn:Hd; simpl.
  - rewrite IH. unfold kept_declarations.
    destruct (filter (λ d0, truthy d0 = true) documents) as [|d' kept];
      [reflexivity|].
    simpl. by rewrite <- app_assoc.
  - apply IH.
Qed.

Lemma each_document_first (pathsAndOrUrls : list string) (d : value)
    (rest : list value) :
  each_document pathsAndOrUrls (d :: rest) 0 no_documents
  = if negb (truthy d) then
      Continue {| rd_swaggerObject := None; rd_resourceListing := None;
                  rd_apiDeclarations := kept_declarations None rest |}
    else if truthy (get_prop d "swagger") then
      Continue {| rd_swaggerObject := Some d; rd_resourceListing := None;
                  rd_apiDeclarations := None |}
    else if truthy (get_prop d "swaggerVersion") then
      Continue {| rd_swaggerObject := None; rd_resourceListing := Some d;
                  rd_apiDeclarations := kept_declarations None rest |}
    else
      handleUnidentifiableVersion (default "undefined" (pathsAndOrUrls !! 0)).
Proof.
  cbn [each_document]. unfold collect_document, no_documents.
  destruct (truthy d); simpl.
  - destruct (truthy (get_prop d "swagger")).
    + by apply each_document_with_swagger_object.
    + destruct (truthy (get_prop d "swaggerVersion")); [|reflexivity].
      apply each_document_declarations.
  - apply each_document_declarations.
Qed.

(** X16.  When the first document is a Swagger 2.0 document (its
    [swagger] property is truthy), it becomes [swaggerObject] and every
    other document given on the command line is left out: neither
    [resourceListing] nor [apiDeclarations] is set, even if the document
    also has a [swaggerVersion]. *)
Theorem swagger_object_first_ignores_the_rest (pathsAndOrUrls : list string)
    (d : value) (rest : list value) :
  truthy d = true →
  truthy (get_prop d "swagger") = true →
  getDocuments_done pathsAndOrUrls ENull (d :: rest)
  = Continue (ENull,
              {| rd_swaggerObject := Some d; rd_resourceListing := None;
                 rd_apiDeclarations := None |}).
Proof.
  intros Hd Hswagger. unfold getDocuments_done.
  by rewrite each_document_first, Hd, Hswagger.
Qed.

Lemma swagger_object_first_ignores_the_rest_witness :
  getDocuments_done ["petstore.json"; "extra.json"] ENull
    [VObj [("swagger", VStr "2.0"); ("swaggerVersion", VStr "1.2")];
     VObj [("apis", VArr [])]]
  = Continue (ENull,
              {| rd_swaggerObject :=
                   Some (VObj [("swagger", VStr "2.0");
                               ("swaggerVersion", VStr "1.2")]);
                 rd_resourceListing := None;
                 rd_apiDeclarations := None |}).
Proof.
  apply (swagger_object_first_ignores_the_rest
           ["petstore.json"; "extra.json"]
           (VObj [("swagger", VStr "2.0"); ("swaggerVersion", VStr "1.2")])
           [VObj [("apis", VArr [])]]); reflexivity.
Defined.

(** X17.  When the first document is a resource listing (no truthy
    [swagger], a truthy [swaggerVersion]), it becomes [resourceListing] and
    [apiDeclarations] holds the other documents that are not falsy, in the
    order given; the property is not set when there is none. *)
Theorem resource_listing_first_collects_declarations
    (pathsAndOrUrls : list string) (d : value) (rest : list value) :
  truthy d = true →
  truthy (get_prop d "swagger") = false →
  truthy (get_prop d "swaggerVersion") = true →
  getDocuments_done pathsAndOrUrls ENull (d :: rest)
  = Continue (ENull,
              {| rd_swaggerObject := None; rd_resourceListing := Some d;
                 rd_apiDeclarations :=
                   match filter (λ d', truthy d' = true) rest with
                   | [] => None
                   | kept => Some kept
                   end |}).
Proof.
  intros Hd Hswagger Hversion. unfold getDocuments_done.
  rewrite each_document_first, Hd, Hswagger, Hversion. simpl.
  unfold kept_declarations. by destruct (filter _ rest).
Qed.

Lemma resource_listing_first_collects_declarations_witness :
  getDocuments_done ["index.json"; "empty.json"; "pets.json"] ENull
    [VObj [("swaggerVersion", VStr "1.2")]; VUndefined;
     VObj [("resourcePath", VStr "/pets")]]
  = Continue (ENull,
              {| rd_swaggerObject := None;
                 rd_resourceListing :=
                   Some (VObj [("swaggerVersion", VStr "1.2")]);
                 rd_apiDeclarations :=
                   Some [VObj [("resourcePath", VStr "/pets")]] |}).
Proof.
  apply (resource_listing_first_collects_declarations
           ["index.json"; "empty.json"; "pets.json"]
           (VObj [("swaggerVersion", VStr "1.2")])
           [VUndefined; VObj [("resourcePath", VStr "/pets")]]); reflexivity.
Defined.

(** X18.  The process exits while the documents are sorted exactly when
    [async.map] reports [null] as error and the first document is not
    falsy but has neither a truthy [swagger] nor a truthy
    [swaggerVersion]; the exit code is 1 and the error names the first
    path.  The later documents never cause an exit. *)
Theorem unidentifiable_first_document_exits (pathsAndOrUrls : list string)
    (err : error_value) (documents : list value) (code : Z)
    (stderr : list string) :
  getDocuments_done pathsAndOrUrls err documents = Exit code stderr
  ↔ err = ENull
    ∧ (∃ d rest,
         documents = d :: rest ∧ truthy d = true
         ∧ truthy (get_prop d "swagger") = false
         ∧ truthy (get_prop d "swaggerVersion") = false)
    ∧ code = 1%Z
    ∧ stderr
      = [""; "  error: Unable to identify the Swagger version for document: "
             +:+ default "undefined" (pathsAndOrUrls !! 0); ""].
Proof.
  unfold getDocuments_done. destruct err.
  2, 3: split; [discriminate | by intros [? _]].
  destruct documents as [|d rest].
  { simpl. split; [discriminate|]. by intros (_ & (? & ? & ? & _) & _). }
  rewrite each_document_first.
  destruct (truthy d) eqn:Hd; simpl.
  2: { split; [discriminate|]. intros (_ & (? & ? & [= <- <-] & ? & _) & _).
       congruence. }
  destruct (truthy (get_prop d "swagger")) eqn:Hswagger.
  { split; [discriminate|]. intros (_ & (? & ? & [= <- <-] & _ & ? & _) & _).
    congruence. }
  destruct (truthy (get_prop d "swaggerVersion")) eqn:Hversion.
  { split; [discriminate|].
    intros (_ & (? & ? & [= <- <-] & _ & _ & ?) & _). congruence. }
  unfold handleUnidentifiableVersion, exitWithError. split.
  - intros [= <- <-]. split; [reflexivity|]. split; [|by split].
    by exists d, rest.
  - intros (_ & _ & -> & ->). reflexivity.
Qed.

Lemma unidentifiable_first_document_exits_witness :
  getDocuments_done ["notes.yaml"; "pets.json"] ENull
    [VObj [("title", VStr "notes")]; VObj [("swagger", VStr "2.0")]]
  = Exit 1
      [""; "  error: Unable to identify the Swagger version for document: notes.yaml";
       ""].
Proof.
  apply (proj2 (unidentifiable_first_document_exits
                  ["notes.yaml"; "pets.json"] ENull
                  [VObj [("title", VStr "notes")];
                   VObj [("swagger", VStr "2.0")]]
                  1
                  [""; "  error: Unable to identify the Swagger version for document: notes.yaml";
                   ""])).
  split; [reflexivity|]. split; [|split; reflexivity].
  exists (VObj [("title", VStr "notes")]), [VObj [("swagger", VStr "2.0")]].
  repeat split; reflexivity.
Defined.

(** X19.  An empty first document is no error here: when the first
    document is falsy (an empty file, [null]), neither [swaggerObject] nor
    [resourceListing] is set, and the other documents that are not falsy
    are all kept as [apiDeclarations]. *)
Theorem empty_first_document_sets_no_listing (pathsAndOrUrls : list string)
    (d : value) (rest : list value) :
  truthy d = false →
  getDocuments_done pathsAndOrUrls ENull (d :: rest)
  = Continue (ENull,
              {| rd_swaggerObject := None; rd_resourceListing := None;
                 rd_apiDeclarations :=
                   match filter (λ d', truthy d' = true) rest with
                   | [] => None
                   | kept => Some kept
                   end |}).
Proof.
  intros Hd. unfold getDocuments_done.
  rewrite each_document_first, Hd. simpl.
  unfold kept_declarations. by destruct (filter _ rest).
Qed.

Lemma empty_first_document_sets_no_listing_witness :
  getDocuments_done ["empty.yaml"; "pets.json"] ENull
    [VNull; VObj [("swagger", VStr "2.0")]]
  = Continue (ENull,
              {| rd_swaggerObject := None; rd_resourceListing := None;
                 rd_apiDeclarations :=
                   Some [VObj [("swagger", VStr "2.0")]] |}).
Proof.
  apply (empty_first_document_sets_no_listing ["empty.yaml"; "pets.json"]
           VNull [VObj [("swagger", VStr "2.0")]]).
  reflexivity.
Defined.

(** X20.  The version the [validate] command looks up is read off the
    first document: for a first document that is not falsy, and documents
    that were sorted without an exit, it is the document's [swagger] when
    that is truthy and its [swaggerVersion] otherwise, and it is truthy;
    for a falsy first document it is [undefined]. *)
Theorem validate_version_is_the_first_documents (pathsAndOrUrls : list string)
    (d : value) (rest : list value) (err : error_value)
    (documents : resolved_documents) :
  getDocuments_done pathsAndOrUrls ENull (d :: rest)
  = Continue (err, documents) →
  (truthy d = true →
   truthy (validate_version documents) = true
   ∧ validate_version documents
     = if truthy (get_prop d "swagger") then get_prop d "swagger"
       else get_prop d "swaggerVersion")
  ∧ (truthy d = false → validate_version documents = VUndefined).
Proof.
  unfold getDocuments_done. rewrite each_document_first.
  destruct (truthy d) eqn:Hd; simpl.
  - destruct (truthy (get_prop d "swagger")) eqn:Hswagger.
    + intros [= <- <-]. split; [|discriminate]. intros _.
      unfold validate_version. simpl. by rewrite Hd, Hswagger.
    + destruct (truthy (get_prop d "swaggerVersion")) eqn:Hversion;
        [|discriminate].
      intros [= <- <-]. split; [|discriminate]. intros _.
      unfold validate_version. simpl. by rewrite Hd.
  - intros [= <- <-]. split; [discriminate | reflexivity].
Qed.

Lemma validate_version_is_the_first_documents_witness :
  validate_version
    {| rd_swaggerObject := None;
       rd_resourceListing := Some (VObj [("swaggerVersion", VStr "1.2")]);
       rd_apiDeclarations := None |}
  = VStr "1.2".
Proof.
  destruct (validate_version_is_the_first_documents ["index.json"]
              (VObj [("swaggerVersion", VStr "1.2")]) [] ENull
              {| rd_swaggerObject := None;
                 rd_resourceListing :=
                   Some (VObj [("swaggerVersion", VStr "1.2")]);
                 rd_apiDeclarations := None |}) as [Htruthy _];
    [reflexivity|].
  destruct (Htruthy eq_refl) as [_ Hversion]. exact Hversion.
Defined.

(** * Further properties of the middleware, continued *)

(** X21.  A default does not stand in for missing request data: a
    declaration that reads [req.query] or [req.body] while it is not there
    raises the configuration error whatever its schema, a schema with a
    default included. *)
Theorem default_does_not_replace_missing_data (keys : list key)
    (m : list value) (req : request) (param : parameter) :
  missing_source req param →
  resolve_param keys m req param
  = Throw (if decide (paramType param = "query") then query_error
           else body_error).
Proof.
  intros Hmissing. unfold resolve_param.
  by rewrite source_value_missing.
Qed.

Lemma default_does_not_replace_missing_data_witness :
  resolve_param [] [] (request_of "GET" "/pets/mine" VUndefined VUndefined)
    {| p_ref := 7; p_name := "limit"; p_in := Some "query";
       p_schema := Some [("default", VNum 20)] |}
  = Throw query_error.
Proof.
  apply (default_does_not_replace_missing_data [] []
           (request_of "GET" "/pets/mine" VUndefined VUndefined)
           {| p_ref := 7; p_name := "limit"; p_in := Some "query";
              p_schema := Some [("default", VNum 20)] |}).
  left. split; reflexivity.
Defined.

(** X22.  Declaring one more path after the others, with a pattern string
    no declared path compiles to, adds its route at the end of the table:
    every request an earlier path matched still selects the same route
    with the same match array, and only requests that matched no route can
    select the new one. *)
Theorem later_path_does_not_shadow `{PathCompiler} (sw : swagger_object)
    (pathName : string) (path : path_item) (rPath : string) :
  (make_route (basePath sw) pathName path).1 ∉ (build_paths sw).*1 →
  build_paths (declare_path sw pathName path)
  = build_paths sw ++ [make_route (basePath sw) pathName path]
  ∧ find_path (build_paths (declare_path sw pathName path)) rPath
    = match find_path (build_paths sw) rPath with
      | Some found => Some found
      | None =>
          match re_exec (r_re (make_route (basePath sw) pathName path).2)
                  rPath with
          | Some m => Some ((make_route (basePath sw) pathName path).2, m)
          | None => None
          end
      end.
Proof.
  intros Hfresh.
  assert (Htable : build_paths (declare_path sw pathName path)
                   = build_paths sw ++ [make_route (basePath sw) pathName path]).
  { unfold build_paths, declare_path. simpl. rewrite fold_left_app. simpl.
    rewrite add_path_set_prop. simpl.
    rewrite set_prop_fresh by exact Hfresh.
    by destruct (make_route (basePath sw) pathName path). }
  split; [exact Htable|].
  rewrite Htable, find_path_app.
  destruct (find_path (build_paths sw) rPath); [reflexivity|].
  destruct (make_route (basePath sw) pathName path) as [k r]. simpl.
  by destruct (re_exec (r_re r) rPath).
Qed.

Lemma later_path_does_not_shadow_witness :
  find_path
    (@build_paths plain_compiler
       (declare_path my_pets_api "/pets/{petId}" pet_by_petId)) "/pets/mine"
  = Some ((@make_route plain_compiler None "/pets/mine" my_pets).2,
          [VStr "/pets/mine"]).
Proof.
  destruct (@later_path_does_not_shadow plain_compiler my_pets_api
              "/pets/{petId}" pet_by_petId "/pets/mine") as [_ Hfind].
  - intros Hin. vm_compute in Hin.
    apply list_elem_of_singleton in Hin. discriminate Hin.
  - rewrite Hfind. vm_compute. reflexivity.
Defined.
